(** * latinChat: the session directory, the command interpreter and the
      broadcast sender of the chalice web-socket chat application.

    The development embeds [chalicelib/storage.py], [chalicelib/sender.py]
    and [chalicelib/handler.py] as functions in a state-and-exception monad
    over a world made of the DynamoDB table, a clock and a trace of the
    calls made to the two external services (the table and the web-socket
    API).  The outcome of every external call is read from an environment
    [env], so that store errors and dead peers are part of the model; the
    order in which Python iterates over a set is read from it as well.
    Events are handled one at a time. *)

From stdpp Require Import gmap strings list sorting.
From Stdlib Require Import Ascii String.

Local Open Scope string_scope.
Local Open Scope list_scope.

(** ** Python strings *)

Module Py.

(** The characters the source uses in literals that cannot be written in a
    string of this file. *)
Definition dquote : string := String (ascii_of_nat 34) EmptyString.
Definition newline : string := String (ascii_of_nat 10) EmptyString.

(** [s.startswith(p)] *)
Definition startswith (p s : string) : bool := String.prefix p s.

(** [s[1:]] *)
Definition tail (s : string) : string :=
  match s with
  | EmptyString => EmptyString
  | String _ r => r
  end.

(** [s.split(sep)] for a separator of one character: the pieces between
    the occurrences of [sep]; never an empty list. *)
Fixpoint split (sep : ascii) (s : string) : list string :=
  match s with
  | EmptyString => [EmptyString]
  | String c r =>
      if decide (c = sep) then EmptyString :: split sep r
      else match split sep r with
           | [] => [String c EmptyString]
           | p :: ps => String c p :: ps
           end
  end.

(** [s.split(sep, 1)]: at most one split, at the first occurrence. *)
Fixpoint split1 (sep : ascii) (s : string) : list string :=
  match s with
  | EmptyString => [EmptyString]
  | String c r =>
      if decide (c = sep) then [EmptyString; r]
      else match split1 sep r with
           | [] => [String c EmptyString]
           | p :: ps => String c p :: ps
           end
  end.

(** [s.lower()].  A string is the sequence of the bytes of its UTF-8
    encoding.  The characters whose lower case is made of ASCII characters
    are the letters [A] to [Z] and the Kelvin sign U+212A (the bytes 226,
    132, 170), whose lower case is [k]; these are lowered.  The code only
    compares the result with the ASCII names of the command table, and on
    every other character [str.lower] gives a character that is not ASCII
    either; the bytes of such a character are kept as they are. *)
Definition lower_ascii (c : ascii) : ascii :=
  let n := nat_of_ascii c in
  if ((65 <=? n)%nat && (n <=? 90)%nat)%bool then ascii_of_nat (n + 32) else c.

Definition kelvin_sign : string :=
  String (ascii_of_nat 226)
    (String (ascii_of_nat 132) (String (ascii_of_nat 170) EmptyString)).

Fixpoint lower (s : string) : string :=
  match s with
  | EmptyString => EmptyString
  | String c r =>
      match r with
      | String c1 (String c2 r') =>
          if decide (nat_of_ascii c = 226 ∧ nat_of_ascii c1 = 132
                     ∧ nat_of_ascii c2 = 170)
          then String "k"%char (lower r')
          else String (lower_ascii c) (lower r)
      | _ => String (lower_ascii c) (lower r)
      end
  end.

(** [s.isascii()] *)
Fixpoint isascii (s : string) : bool :=
  match s with
  | EmptyString => true
  | String c r => (nat_of_ascii c <? 128)%nat && isascii r
  end.

(** [c in s] for a character [c] *)
Fixpoint contains (c : ascii) (s : string) : bool :=
  match s with
  | EmptyString => false
  | String d r => if decide (d = c) then true else contains c r
  end.

(** [sep.join(l)] *)
Definition join (sep : string) (l : list string) : string := String.concat sep l.

(** [l.remove(x)] on a list that holds [x]: the first occurrence goes. *)
Fixpoint remove_first (x : string) (l : list string) : list string :=
  match l with
  | [] => []
  | y :: r => if decide (y = x) then r else y :: remove_first x r
  end.

End Py.

(** ** The world: table, clock, trace *)

(** A row of the table: the code only ever writes the two key attributes. *)
Record item := Item { PK : string; SK : string }.

#[global] Instance item_eq_dec : EqDecision item.
Proof. solve_decision. Defined.

(** The exceptions that can travel through the code. *)
Inductive exn :=
| KeyError (key : string)
| IndexError
| ValueError
| TypeError
| ClientError
| WebsocketDisconnectedError (connection_id : string)
| WebsocketError.

(** What the web-socket API does with a message pushed to a connection:
    it delivers it, finds the peer gone, or fails in some other way. *)
Inductive push_result := Delivered | PeerGone | PushFailed.

(** The calls made to the table. *)
Inductive db_op :=
| PutItem (pk sk : string)
| DeleteItem (pk sk : string)
| QueryPK (pk : string)
| QueryIndex (sk : string)
| Scan.

(** One entry of the trace: a call to the table and whether it succeeded,
    a push and its outcome, or a line printed by [print(e)]. *)
Inductive event :=
| Db (op : db_op) (ok : bool)
| Push (connection_id message : string) (r : push_result)
| Printed (e : exn).

#[global] Instance exn_eq_dec : EqDecision exn.
Proof. solve_decision. Defined.
#[global] Instance push_result_eq_dec : EqDecision push_result.
Proof. solve_decision. Defined.
#[global] Instance db_op_eq_dec : EqDecision db_op.
Proof. solve_decision. Defined.
#[global] Instance event_eq_dec : EqDecision event.
Proof. solve_decision. Defined.

Record world := World {
  table : list item;
  clock : nat;
  trace : list event
}.

(** The environment: at the [n]-th external call, does the table raise,
    and what happens to a message pushed to a connection; and the order in
    which Python iterates over a set of strings, which depends on the hash
    seed of the process.  An iteration visits every element once: see
    [python_sets] below. *)
Record env := Env {
  db_fails : nat -> bool;
  ws_push : nat -> string -> push_result;
  set_iteration : gset string -> list string
}.

(** ** The monad of the code: state and exceptions *)

Inductive result (A : Type) :=
| Ok (a : A)
| Raise (e : exn).
Arguments Ok {A} a.
Arguments Raise {A} e.

Definition M (A : Type) : Type := world -> result A * world.

Definition ret {A} (a : A) : M A := fun w => (Ok a, w).

Definition raise {A} (e : exn) : M A := fun w => (Raise e, w).

Definition bind {A B} (c : M A) (k : A -> M B) : M B :=
  fun w =>
    match c w with
    | (Ok a, w') => k a w'
    | (Raise e, w') => (Raise e, w')
    end.

(** A computation that does not touch the world. *)
Definition lift {A} (r : result A) : M A := fun w => (r, w).

(** [try: c except Exception as e: h e] *)
Definition try_except {A} (c : M A) (h : exn -> M A) : M A :=
  fun w =>
    match c w with
    | (Ok a, w') => (Ok a, w')
    | (Raise e, w') => h e w'
    end.

Notation "'let!' x ':=' c1 'in' c2" := (bind c1 (fun x => c2))
  (at level 10, x name, c1 at level 100, c2 at level 200).
Notation "c1 >>> c2" := (bind c1 (fun _ => c2))
  (at level 62, right associativity).

(** [for x in l: f x] *)
Fixpoint for_each {A} (l : list A) (f : A -> M unit) : M unit :=
  match l with
  | [] => ret tt
  | x :: r => f x >>> for_each r f
  end.

(** [[f x for x in l]] *)
Fixpoint map_each {A B} (l : list A) (f : A -> M B) : M (list B) :=
  match l with
  | [] => ret []
  | x :: r => let! y := f x in let! ys := map_each r f in ret (y :: ys)
  end.

(** [l[i]] *)
Definition getitem {A} (l : list A) (i : nat) : M A :=
  match l !! i with
  | Some x => ret x
  | None => raise IndexError
  end.

(** [d[k]] *)
Definition dict_getitem (d : gmap string string) (k : string) : M string :=
  match d !! k with
  | Some v => ret v
  | None => raise (KeyError k)
  end.

(** [print(e)] *)
Definition print (e : exn) : M unit :=
  fun w => (Ok tt, World (table w) (clock w) (trace w ++ [Printed e])).

(** ** The table (boto3's Table resource, as the code uses it)

    The table has the partition key [PK] and the sort key [SK]; its index
    [ReverseLookup] has the partition key [SK].  A row is identified by
    its two key attributes, which are all the code writes, so that putting
    a row that is there changes nothing and deleting one that is not there
    is not an error.  The list of the model keeps the rows in the order in
    which they were written, which no call shows: a query returns every
    matching row in one page, ordered by the sort key of what is queried
    ([SK] for the table, and [PK] for the index, which "inverts the PK, SK
    relationship"); a scan returns the rows in an order that the code does
    not depend on. *)

(** The order of DynamoDB on the values of a string attribute: the order
    of the bytes of the UTF-8 encoding. *)
Fixpoint key_leb (a b : string) : bool :=
  match a, b with
  | EmptyString, _ => true
  | String _ _, EmptyString => false
  | String x a', String y b' =>
      if (nat_of_ascii x <? nat_of_ascii y)%nat then true
      else if (nat_of_ascii y <? nat_of_ascii x)%nat then false
      else key_leb a' b'
  end.

Fixpoint insert_by (key : item -> string) (x : item) (l : list item)
  : list item :=
  match l with
  | [] => [x]
  | y :: r =>
      if key_leb (key x) (key y) then x :: y :: r
      else y :: insert_by key x r
  end.

(** The rows of a query result, in ascending order of [key]. *)
Definition sorted_by (key : item -> string) (l : list item) : list item :=
  foldr (insert_by key) [] l.

Definition table_put (it : item) (t : list item) : list item :=
  if decide (it ∈ t) then t else t ++ [it].

Definition table_delete (it : item) (t : list item) : list item :=
  filter (fun x => x ≠ it) t.

Section Code.

Variable E : env.

(** An external call to the table: it raises when the environment says so,
    and leaves the table as it was; otherwise it runs [f]. *)
Definition db_call {A} (op : db_op) (f : list item -> A * list item) : M A :=
  fun w =>
    if db_fails E (clock w)
    then (Raise ClientError,
          World (table w) (S (clock w)) (trace w ++ [Db op false]))
    else let '(a, t) := f (table w) in
         (Ok a, World t (S (clock w)) (trace w ++ [Db op true])).

Definition put_item (it : item) : M unit :=
  db_call (PutItem (PK it) (SK it)) (fun t => (tt, table_put it t)).

Definition delete_item (pk sk : string) : M unit :=
  db_call (DeleteItem pk sk) (fun t => (tt, table_delete (Item pk sk) t)).

Definition query_pk (pk : string) : M (list item) :=
  db_call (QueryPK pk)
          (fun t => (sorted_by SK (filter (fun x => PK x = pk) t), t)).

Definition query_index (sk : string) : M (list item) :=
  db_call (QueryIndex sk)
          (fun t => (sorted_by PK (filter (fun x => SK x = sk) t), t)).

Definition scan : M (list item) :=
  db_call Scan (fun t => (t, t)).

(** [app.websocket_api.send(connection_id, message)] *)
Definition websocket_api_send (connection_id message : string) : M unit :=
  fun w =>
    let r := ws_push E (clock w) connection_id in
    let w' := World (table w) (S (clock w))
                    (trace w ++ [Push connection_id message r]) in
    match r with
    | Delivered => (Ok tt, w')
    | PeerGone => (Raise (WebsocketDisconnectedError connection_id), w')
    | PushFailed => (Raise WebsocketError, w')
    end.

(** ** storage.py *)

Definition create_connection (connection_id : string) : M unit :=
  put_item (Item connection_id "username_").

Definition set_username (connection_id old_name username : string) : M unit :=
  delete_item connection_id ("username_" +:+ old_name) >>>
  put_item (Item connection_id ("username_" +:+ username)).

Definition list_rooms : M (gset string) :=
  let! items := scan in
  let! rooms :=
    map_each (filter (fun it => Py.startswith "room_" (SK it) = true) items)
             (fun it => getitem (Py.split1 "_" (SK it)) 1) in
  ret (list_to_set rooms).

Definition set_room (connection_id room : string) : M unit :=
  put_item (Item connection_id ("room_" +:+ room)).

Definition remove_room (connection_id room : string) : M unit :=
  delete_item connection_id ("room_" +:+ room).

Definition get_connection_ids_by_room (room : string) : M (list string) :=
  let! items := query_index ("room_" +:+ room) in
  ret (PK <$> items).

Definition delete_connection (connection_id : string) : M unit :=
  try_except
    (let! items := query_pk connection_id in
     for_each items (fun it => delete_item connection_id (SK it)))
    (fun e => print e).

(** The dict comprehension of [get_record_by_connection]: every entry's
    [SK] is split once at its first underscore, [split(...)[0]] is the key
    and [split(...)[1]] the value ([IndexError] when there is no
    underscore); a later entry overwrites an earlier one with its key. *)
Fixpoint record_of (entries : list item) (d : gmap string string)
  : result (gmap string string) :=
  match entries with
  | [] => Ok d
  | entry :: r =>
      match Py.split1 "_" (SK entry) with
      | k :: v :: _ => record_of r (<[k := v]> d)
      | _ => Raise IndexError
      end
  end.

Definition get_record_by_connection (connection_id : string)
  : M (gmap string string) :=
  let! items := query_pk connection_id in
  lift (record_of items ∅).

(** ** sender.py *)

Definition send (connection_id message : string) : M unit :=
  fun w =>
    match websocket_api_send connection_id message w with
    | (Raise (WebsocketDisconnectedError cid), w') => delete_connection cid w'
    | rw => rw
    end.

Definition broadcast (connection_ids : list string) (message : string) : M unit :=
  for_each connection_ids (fun cid => send cid message).

(** [self._sender(connection_id, message)]: the class [Sender] defines
    [__init__], [send] and [broadcast] only, so an instance is not callable
    and Python raises [TypeError] once the arguments are evaluated. *)
Definition sender_call (connection_id message : string) : M unit :=
  raise TypeError.

(** ** handler.py *)

Definition _handle_login_message (connection_id message : string) : M unit :=
  set_username connection_id "" message >>>
  send connection_id
       ("Using nickname: " +:+ message +:+ Py.newline +:+
        "Type /help for list of commands.").

Definition _handle_text (connection_id message : string)
    (record : gmap string string) : M unit :=
  match record !! "room" with
  | None => send connection_id "Cannot send message if not in chatroom."
  | Some room =>
      let! connection_ids := get_connection_ids_by_room room in
      let! username := dict_getitem record "username" in
      broadcast connection_ids (username +:+ ": " +:+ message)
  end.

Definition help_text : string :=
  Py.join Py.newline [
    "Commands available:";
    "    /help";
    "          Display this message.";
    "    /join {chat_room_name}";
    "          Join a chatroom named {chat_room_name}.";
    "    /nick {nickname}";
    "          Change your name to {nickname}. If no {nickname}";
    "          is provided then your current name will be printed";
    "    /room";
    "          Print out the name of the room you are currently ";
    "          in.";
    "    /ls";
    "          If you are in a room, list all users also in the";
    "          room. Otherwise, list all rooms.";
    "    /quit";
    "          Leave current room.";
    "";
    "If you are in a room, raw text messages that do not start ";
    "with a / will be sent to everyone else in the room."
  ].

Definition _help (connection_id : string) (_message : list string)
    (_record : gmap string string) : M unit :=
  send connection_id help_text.

Definition _nick (connection_id : string) (args : list string)
    (record : gmap string string) : M unit :=
  match args with
  | [] =>
      let! username := dict_getitem record "username" in
      send connection_id ("Current nickname: " +:+ username)
  | nick :: _ =>
      let! old_name := dict_getitem record "username" in
      set_username connection_id old_name nick >>>
      send connection_id ("Nickname is: " +:+ nick) >>>
      match record !! "room" with
      | None => ret tt
      | Some room =>
          if decide (room = "") then ret tt
          else
            let! room_connections := get_connection_ids_by_room room in
            let! room_connections :=
              (if decide (connection_id ∈ room_connections)
               then ret (Py.remove_first connection_id room_connections)
               else raise ValueError) in
            let! username := dict_getitem record "username" in
            broadcast room_connections
                      (username +:+ " is now known as " +:+ nick +:+ ".")
      end
  end.

Definition _quit (connection_id : string) (_args : list string)
    (record : gmap string string) : M unit :=
  match record !! "room" with
  | None => ret tt
  | Some room_name =>
      remove_room connection_id room_name >>>
      send connection_id
           ("Left chat room " +:+ Py.dquote +:+ room_name +:+ Py.dquote) >>>
      let! connection_ids := get_connection_ids_by_room room_name in
      let! username := dict_getitem record "username" in
      broadcast connection_ids (username +:+ " left room.")
  end.

Definition _join (connection_id : string) (args : list string)
    (record : gmap string string) : M unit :=
  let! room := getitem args 0 in
  _quit connection_id [] record >>>
  let! room_connections := get_connection_ids_by_room room in
  set_room connection_id room >>>
  send connection_id
       ("Joined chat room " +:+ Py.dquote +:+ room +:+ Py.dquote) >>>
  let! username := dict_getitem record "username" in
  broadcast room_connections (username +:+ " joined room.").

Definition _room (connection_id : string) (_args : list string)
    (record : gmap string string) : M unit :=
  match record !! "room" with
  | Some room => send connection_id room
  | None =>
      send connection_id
           "Not currently in a room. Type /join {room_name} to do so."
  end.

(** In the second branch [result] is a Python set, joined in the order of
    its iteration, which the environment gives. *)
Definition _list (connection_id : string) (_args : list string)
    (record : gmap string string) : M unit :=
  let all_rooms := let! rooms := list_rooms in ret (set_iteration E rooms) in
  let! result :=
    match record !! "room" with
    | None => all_rooms
    | Some room =>
        if decide (room = "") then all_rooms
        else
          let! connection_ids := get_connection_ids_by_room room in
          map_each connection_ids (fun c_id =>
            let! r := get_record_by_connection c_id in
            dict_getitem r "username")
    end in
  send connection_id (Py.join Py.newline result).

Definition _command_table
  : gmap string (string -> list string -> gmap string string -> M unit) :=
  list_to_map [
    ("help", _help);
    ("nick", _nick);
    ("join", _join);
    ("room", _room);
    ("quit", _quit);
    ("ls", _list)
  ].

Definition _handle_command (connection_id message : string)
    (record : gmap string string) : M unit :=
  let args := Py.split " " message in
  let! name := getitem args 0 in
  let args := drop 1 args in
  let command_name := Py.lower name in
  match _command_table !! command_name with
  | Some command => command connection_id args record
  | None =>
      sender_call connection_id ("Unknown command: " +:+ command_name)
  end.

Definition _handle_message (connection_id message : string)
    (record : gmap string string) : M unit :=
  if Py.startswith "/" message
  then _handle_command connection_id (Py.tail message) record
  else _handle_text connection_id message record.

Definition handle (connection_id message : string) : M unit :=
  let! record := get_record_by_connection connection_id in
  let! username := dict_getitem record "username" in
  if decide (username = "")
  then _handle_login_message connection_id message
  else _handle_message connection_id message record.

(** ** app.py: the three event hooks (the fixed lines they print are
       left out) *)

Definition connect (connection_id : string) : M unit :=
  create_connection connection_id.

Definition disconnect (connection_id : string) : M unit :=
  delete_connection connection_id.

Definition message (connection_id body : string) : M unit :=
  handle connection_id body.

End Code.

(** * The vocabulary of the statements *)

(** ** Sessions *)

(** The rows of a connection, as the list of the model has them; a query
    gives them in the order of their [SK]. *)
Definition rows_of (cid : string) (t : list item) : list item :=
  filter (fun x => PK x = cid) t.

(** What [get_record_by_connection] computes from the rows of the table:
    the query gives the rows of the connection in the order of their
    [SK]. *)
Definition session (t : list item) (cid : string)
  : result (gmap string string) :=
  record_of (sorted_by SK (rows_of cid t)) ∅.

(** What [get_connection_ids_by_room] returns: the connections that have
    the membership row of the room, in ascending order. *)
Definition members (t : list item) (room : string) : list string :=
  PK <$> sorted_by PK (filter (fun x => SK x = "room_" +:+ room) t).

(** The value that an entry gives to a key of the record, if any. *)
Definition entry (key : string) (it : item) : option string :=
  match Py.split1 "_" (SK it) with
  | k :: v :: _ => if decide (k = key) then Some v else None
  | _ => None
  end.

(** A row whose [SK] has an underscore. *)
Definition well_formed (it : item) : Prop :=
  ∃ k v, Py.split1 "_" (SK it) = [k; v].

(** The connection has a membership row for the room. *)
Definition in_room (t : list item) (cid room : string) : Prop :=
  Item cid ("room_" +:+ room) ∈ t.

(** The connection has the identity row of that name. *)
Definition named (t : list item) (cid name : string) : Prop :=
  Item cid ("username_" +:+ name) ∈ t.

(** At most one room for a connection, and for every connection. *)
Definition one_room (t : list item) (cid : string) : Prop :=
  ∀ r1 r2, in_room t cid r1 → in_room t cid r2 → r1 = r2.

Definition at_most_one_room (t : list item) : Prop :=
  ∀ cid, one_room t cid.

(** The rows of the connection once the room of the record is left. *)
Definition rows_after_quit (cid : string) (rec : gmap string string)
    (rows : list item) : list item :=
  match rec !! "room" with
  | Some room => table_delete (Item cid ("room_" +:+ room)) rows
  | None => rows
  end.

(** ** Worlds and traces *)

(** The world after the query that loads the record. *)
Definition after_query (cid : string) (w : world) : world :=
  World (table w) (S (clock w)) (trace w ++ [Db (QueryPK cid) true]).

(** The pushes of a piece of trace, in order. *)
Definition pushes (evs : list event) : list (string * string * push_result) :=
  omap (fun e => match e with
                 | Push c m r => Some (c, m, r)
                 | _ => None
                 end) evs.

(** The connections pushed to and the messages, in order, whatever became
    of the push. *)
Definition pushed (evs : list event) : list (string * string) :=
  (fun p => (p.1.1, p.1.2)) <$> pushes evs.

(** The messages that reached their connection. *)
Definition deliveries (evs : list event) : list (string * string) :=
  omap (fun e => match e with
                 | Push c m Delivered => Some (c, m)
                 | _ => None
                 end) evs.

(** What a push to [c] gives when [h] is the one dead handle. *)
Definition outcome (h c : string) : push_result :=
  if decide (c = h) then PeerGone else Delivered.

(** ** Relations between the world before and after a computation *)

(** Every run of [c] takes a world to one that [R] relates to it, whether
    [c] returns or raises. *)
Definition steps {A} (R : world → world → Prop) (c : M A) : Prop :=
  ∀ w, R w (snd (c w)).

(** The table only loses rows. *)
Definition shrinks (w w' : world) : Prop :=
  ∀ x, x ∈ table w' → x ∈ table w.

(** The rows of one connection are kept. *)
Definition keeps_rows (cid : string) (w w' : world) : Prop :=
  rows_of cid (table w') = rows_of cid (table w).

(** Nothing is pushed. *)
Definition quiet (w w' : world) : Prop :=
  ∃ evs, trace w' = trace w ++ evs ∧ pushes evs = [].

(** No connection gains a membership row. *)
Definition no_new_rooms (w w' : world) : Prop :=
  ∀ cid r, in_room (table w') cid r → in_room (table w) cid r.

(** A computation that returns and keeps the rows of a connection. *)
Definition safe (cid : string) {A} (c : M A) : Prop :=
  ∀ w, (∃ a, (c w).1 = Ok a) ∧ keeps_rows cid w (c w).2.

(** ** Parts of [_quit] and [_join] *)

(** What [_quit] does after the membership row is deleted. *)
Definition quit_rest (E : env) (cid room_name : string)
    (rec : gmap string string) : M unit :=
  send E cid ("Left chat room " +:+ Py.dquote +:+ room_name +:+ Py.dquote) >>>
  let! connection_ids := get_connection_ids_by_room E room_name in
  let! username := dict_getitem rec "username" in
  broadcast E connection_ids (username +:+ " left room.").

(** What [_join] does after the membership row is written. *)
Definition join_rest (E : env) (cid room : string)
    (room_connections : list string) (rec : gmap string string) : M unit :=
  send E cid ("Joined chat room " +:+ Py.dquote +:+ room +:+ Py.dquote) >>>
  let! username := dict_getitem rec "username" in
  broadcast E room_connections (username +:+ " joined room.").

(** ** Sequences of events *)

(** The events that the application is invoked for. *)
Inductive ws_event :=
| Connect (connection_id : string)
| Disconnect (connection_id : string)
| Message (connection_id body : string).

Definition dispatch (E : env) (ev : ws_event) : M unit :=
  match ev with
  | Connect c => connect E c
  | Disconnect c => disconnect E c
  | Message c body => message E c body
  end.

(** The world after a sequence of events, one after the other. *)
Fixpoint run (E : env) (evs : list ws_event) (w : world) : world :=
  match evs with
  | [] => w
  | ev :: r => run E r (dispatch E ev w).2
  end.

(** ** Concrete environments and worlds *)

(** In an environment of Python, the iteration over a set visits every
    element once. *)
Definition python_sets (E : env) : Prop :=
  ∀ s, set_iteration E s ≡ₚ elements s.

(** Every call succeeds. *)
Definition reliable : env :=
  Env (fun _ => false) (fun _ _ => Delivered) elements.

(** The table answers and [c1] is gone. *)
Definition c1_gone : env :=
  Env (fun _ => false)
      (fun _ c => if decide (c = "c1") then PeerGone else Delivered)
      elements.

(** The table does not answer. *)
Definition db_down : env :=
  Env (fun _ => true) (fun _ _ => Delivered) elements.

(** The worlds below are reached by running the code from the empty
    table. *)
Definition empty_world : world := World [] 0 [].

(** [c1] connected and chose the name [alice]. *)
Definition w_alice : world :=
  (message reliable "c1" "alice" (connect reliable "c1" empty_world).2).2.

(** [c1] then joined the room [lobby]. *)
Definition w_lobby : world :=
  (message reliable "c1" "/join lobby" w_alice).2.

(** [c1] was then disconnected. *)
Definition w_gone : world :=
  (disconnect reliable "c1" w_lobby).2.

(** Instead, [c2] connected and chose the name [bob]. *)
Definition w_bob : world :=
  (message reliable "c2" "bob" (connect reliable "c2" w_lobby).2).2.

(** [c2] joined [lobby] as well. *)
Definition w_both : world :=
  (message reliable "c2" "/join lobby" w_bob).2.


(** The records of the two connections. *)
Definition alice : gmap string string := {["username" := "alice"]}.

Definition alice_in_lobby : gmap string string :=
  <["room" := "lobby"]> {["username" := "alice"]}.

Definition bob : gmap string string := {["username" := "bob"]}.

(** ** Identity rows, well-formed tables, tables left as they are *)

(** At most one identity row for a connection, and for every connection. *)
Definition one_name (t : list item) (cid : string) : Prop :=
  ∀ n1 n2, named t cid n1 → named t cid n2 → n1 = n2.

Definition at_most_one_name (t : list item) : Prop :=
  ∀ cid, one_name t cid.

(** No connection gains an identity row. *)
Definition no_new_names (w w' : world) : Prop :=
  ∀ cid n, named (table w') cid n → named (table w) cid n.

(** Every row of the table has an underscore in its [SK]. *)
Definition well_formed_table (t : list item) : Prop :=
  ∀ x, x ∈ t → well_formed x.

(** The rows that the table gains are well formed. *)
Definition gains_well_formed (w w' : world) : Prop :=
  ∀ x, x ∈ table w' → x ∈ table w ∨ well_formed x.

(** A list of rows in ascending order of [key]. *)
Definition ascending (key : item → string) (l : list item) : Prop :=
  StronglySorted (fun x y => key_leb (key x) (key y) = true) l.

(** The table is left as it is. *)
Definition same_table (w w' : world) : Prop := table w' = table w.

(** The record of the connection can be built and has that username. *)
Definition username_of (t : list item) (cid u : string) : Prop :=
  ∃ rec, session t cid = Ok rec ∧ rec !! "username" = Some u.

(** The room that a membership row stands for ([split('_', 1)[1]]). *)
Definition room_of (it : item) : string :=
  default "" (Py.split1 "_" (SK it) !! 1).

(** ** More concrete environments and worlds *)

(** The table answers and every push to [c2] fails for another reason than
    a peer gone. *)
Definition c2_failing : env :=
  Env (fun _ => false)
      (fun _ c => if decide (c = "c2") then PushFailed else Delivered)
      elements.

(** [c1] has just connected. *)
Definition w_fresh : world := (connect reliable "c1" empty_world).2.

(** The record of a connection that has not chosen a name. *)
Definition anonymous : gmap string string := {["username" := ""]}.

(** [c1], who chose the name [alice], connects once more: its partition
    holds the row of the name and the stub row. *)
Definition w_reconnected : world := (connect reliable "c1" w_alice).2.

(** [c2] is in [lobby] before [c1] enters it. *)
Definition w_late : world :=
  run reliable
    [Connect "c2"; Message "c2" "bob"; Message "c2" "/join lobby";
     Connect "c1"; Message "c1" "alice"; Message "c1" "/join lobby"]
    empty_world.


(** * Properties *)

(** ** Strings *)

Example split_examples :
  Py.split " " "join  a b" = ["join"; ""; "a"; "b"] ∧
  Py.split " " "" = [""] ∧
  Py.split " " "join " = ["join"; ""] ∧
  Py.split1 "_" "room_a_b" = ["room"; "a_b"] ∧
  Py.split1 "_" "abc" = ["abc"] ∧
  Py.lower "JoIn@[1" = "join@[1" ∧
  Py.lower ("NIC" +:+ Py.kelvin_sign) = "nick" ∧
  Py.isascii "JoIn@[1" = true ∧
  Py.isascii Py.kelvin_sign = false ∧
  Py.remove_first "b" ["a"; "b"; "c"; "b"] = ["a"; "c"; "b"].
Proof. by vm_compute. Qed.

Lemma split1_length sep s : (List.length (Py.split1 sep s) ≤ 2)%nat.
Proof.
  induction s as [|c s IH]; simpl; [lia|].
  destruct (decide (c = sep)); simpl; [lia|].
  destruct (Py.split1 sep s); simpl in *; lia.
Qed.

Lemma split1_two sep s k v rest :
  Py.split1 sep s = k :: v :: rest →
  rest = [] ∧ s = k +:+ String sep v.
Proof.
  revert k v rest. induction s as [|c s IH]; intros k v rest; simpl; [done|].
  destruct (decide (c = sep)) as [->|Hc].
  - intros [= <- <- <-]. done.
  - destruct (Py.split1 sep s) as [|p ps] eqn:Hs; [done|].
    intros [= <- ->].
    destruct (IH _ _ _ eq_refl) as [-> ->]. done.
Qed.

Lemma split1_room v : Py.split1 "_" ("room_" +:+ v) = ["room"; v].
Proof. reflexivity. Qed.

Lemma split1_username v : Py.split1 "_" ("username_" +:+ v) = ["username"; v].
Proof. reflexivity. Qed.

Lemma split_no_sep sep s :
  Py.contains sep s = false → Py.split sep s = [s].
Proof.
  induction s as [|c s IH]; simpl; [done|].
  destruct (decide (c = sep)); [done|].
  intros H. by rewrite (IH H).
Qed.

Lemma split_nonempty sep s : Py.split sep s ≠ [].
Proof.
  destruct s as [|c s]; simpl; [done|].
  destruct (decide (c = sep)); [done|]. by destruct (Py.split sep s).
Qed.

Lemma app_inj_l (p a b : string) : p +:+ a = p +:+ b → a = b.
Proof. induction p as [|c p IH]; simpl; [done|]. intros [= H]. auto. Qed.

(** ** The monad *)

Lemma bind_ok {A B} (c : M A) (k : A → M B) w a w1 :
  c w = (Ok a, w1) → bind c k w = k a w1.
Proof. unfold bind. by intros ->. Qed.

Lemma bind_raise {A B} (c : M A) (k : A → M B) w e w1 :
  c w = (Raise e, w1) → bind c k w = (Raise e, w1).
Proof. unfold bind. by intros ->. Qed.

Lemma bind_ok_inv {A B} (c : M A) (k : A → M B) w b w' :
  bind c k w = (Ok b, w') →
  ∃ a w1, c w = (Ok a, w1) ∧ k a w1 = (Ok b, w').
Proof.
  unfold bind. destruct (c w) as [[a|e] w1]; [eauto | done].
Qed.

(** ** Tables *)

Lemma elem_of_table_put it x t : x ∈ table_put it t ↔ x = it ∨ x ∈ t.
Proof.
  unfold table_put. destruct (decide (it ∈ t)) as [Hin|Hin].
  - split; [auto | intros [->|]; done].
  - rewrite elem_of_app, (list_elem_of_singleton x it). tauto.
Qed.

Lemma elem_of_table_delete it x t : x ∈ table_delete it t ↔ x ≠ it ∧ x ∈ t.
Proof. unfold table_delete. by rewrite list_elem_of_filter. Qed.

Lemma NoDup_table_put it t : NoDup t → NoDup (table_put it t).
Proof.
  unfold table_put. destruct (decide (it ∈ t)); [done|].
  intros H. apply NoDup_app. split; [done|]. split.
  - intros x Hx ->%list_elem_of_singleton. done.
  - apply NoDup_singleton.
Qed.

Lemma NoDup_table_delete it t : NoDup t → NoDup (table_delete it t).
Proof. intros H. unfold table_delete. by apply NoDup_filter. Qed.

Lemma filter_elem_of_ext {A} (P Q : A → Prop)
    `{∀ x, Decision (P x)} `{∀ x, Decision (Q x)} (t : list A) :
  (∀ x, x ∈ t → P x ↔ Q x) → filter P t = filter Q t.
Proof.
  induction t as [|y t IH]; intros Hpq; [done|].
  rewrite !filter_cons.
  assert (P y ↔ Q y) as Hy by (apply Hpq; left).
  rewrite IH by (intros x Hx; apply Hpq; by right).
  destruct (decide (P y)), (decide (Q y)); tauto.
Qed.

Lemma filter_all {A} (P : A → Prop) `{∀ x, Decision (P x)} (t : list A) :
  (∀ x, x ∈ t → P x) → filter P t = t.
Proof.
  induction t as [|y t IH]; intros Hp; [done|].
  rewrite filter_cons_True by (apply Hp; left).
  rewrite IH; [done|]. intros x Hx. apply Hp. by right.
Qed.

Lemma filter_none {A} (P : A → Prop) `{∀ x, Decision (P x)} (l : list A) :
  (∀ x, x ∈ l → ¬ P x) → filter P l = [].
Proof.
  induction l as [|y l IH]; intros Hp; [done|].
  rewrite filter_cons_False by (apply Hp; left).
  apply IH. intros x Hx. apply Hp. by right.
Qed.

Lemma filter_table_put (P : item → Prop) `{∀ x, Decision (P x)} y l :
  ¬ P y → filter P (table_put y l) = filter P l.
Proof.
  intros Hy. unfold table_put. destruct (decide (y ∈ l)); [done|].
  by rewrite filter_app, (filter_cons_False _ y), filter_nil, app_nil_r.
Qed.

Lemma filter_table_delete (P : item → Prop) `{∀ x, Decision (P x)} y l :
  ¬ P y → filter P (table_delete y l) = filter P l.
Proof.
  intros Hy. unfold table_delete. rewrite list_filter_filter.
  apply filter_elem_of_ext. intros x _. split; [tauto|].
  intros Hx. split; [done|]. by intros ->.
Qed.

Lemma rows_of_table_delete cid it t :
  rows_of cid (table_delete it t) = table_delete it (rows_of cid t).
Proof.
  unfold rows_of, table_delete. rewrite !list_filter_filter.
  apply filter_elem_of_ext. tauto.
Qed.

Lemma rows_of_table_put cid sk t :
  rows_of cid (table_put (Item cid sk) t) =
    table_put (Item cid sk) (rows_of cid t).
Proof.
  unfold table_put, rows_of.
  destruct (decide (Item cid sk ∈ t)) as [Hin|Hin].
  - rewrite decide_True; [done|]. by apply list_elem_of_filter.
  - rewrite decide_False by (by intros [_ ?]%list_elem_of_filter).
    rewrite filter_app. f_equal. by rewrite filter_cons_True.
Qed.

(** ** The order of a query result *)

Lemma key_leb_total a b : key_leb a b = true ∨ key_leb b a = true.
Proof.
  revert b. induction a as [|x a IH]; intros [|y b]; simpl; auto.
  destruct (Nat.ltb_spec (nat_of_ascii x) (nat_of_ascii y)); [by left|].
  destruct (Nat.ltb_spec (nat_of_ascii y) (nat_of_ascii x)); [by right|].
  apply IH.
Qed.

Lemma key_leb_trans a b c :
  key_leb a b = true → key_leb b c = true → key_leb a c = true.
Proof.
  revert b c. induction a as [|x a IH]; intros [|y b] [|z c]; simpl; try done.
  destruct (Nat.ltb_spec (nat_of_ascii x) (nat_of_ascii y)),
           (Nat.ltb_spec (nat_of_ascii y) (nat_of_ascii z)),
           (Nat.ltb_spec (nat_of_ascii x) (nat_of_ascii z));
    try done; try lia;
    destruct (Nat.ltb_spec (nat_of_ascii y) (nat_of_ascii x)); try done;
    destruct (Nat.ltb_spec (nat_of_ascii z) (nat_of_ascii y)); try done;
    destruct (Nat.ltb_spec (nat_of_ascii z) (nat_of_ascii x)); try done;
    try lia.
  apply IH.
Qed.

Lemma insert_by_perm key x l : insert_by key x l ≡ₚ x :: l.
Proof.
  induction l as [|y l IH]; simpl; [done|].
  destruct (key_leb (key x) (key y)); [done|].
  rewrite IH. apply Permutation_swap.
Qed.

Lemma sorted_by_perm key l : sorted_by key l ≡ₚ l.
Proof.
  induction l as [|x l IH]; simpl; [done|].
  by rewrite insert_by_perm, IH.
Qed.

Lemma elem_of_sorted_by key x l : x ∈ sorted_by key l ↔ x ∈ l.
Proof. by rewrite sorted_by_perm. Qed.

Lemma length_sorted_by key l : List.length (sorted_by key l) = List.length l.
Proof. by rewrite sorted_by_perm. Qed.

Lemma ascending_insert_by key x l :
  ascending key l → ascending key (insert_by key x l).
Proof.
  unfold ascending. induction 1 as [|y l Hl IH Hy]; simpl.
  - repeat constructor.
  - destruct (key_leb (key x) (key y)) eqn:Hxy.
    + constructor; [by constructor|]. constructor; [done|].
      eapply Forall_impl; [exact Hy|]. intros z Hz. simpl in Hz.
      by eapply key_leb_trans.
    + constructor; [done|].
      apply Forall_forall. intros z Hz.
      rewrite insert_by_perm in Hz. apply elem_of_cons in Hz as [->|Hz].
      * by destruct (key_leb_total (key x) (key y)) as [H|H]; [congruence|].
      * rewrite Forall_forall in Hy. by apply Hy.
Qed.

(** A query result is in ascending order of the key. *)
Lemma ascending_sorted_by key l : ascending key (sorted_by key l).
Proof.
  induction l as [|x l IH]; simpl; [constructor|].
  by apply ascending_insert_by.
Qed.

(** Leaving rows out of a query result gives the result of the query
    without these rows. *)
Lemma filter_insert_by key (P : item → Prop) `{∀ x, Decision (P x)} x l :
  ascending key l →
  filter P (insert_by key x l) =
    if decide (P x) then insert_by key x (filter P l) else filter P l.
Proof.
  unfold ascending. induction 1 as [|y l Hl IH Hy]; simpl.
  - rewrite filter_cons, filter_nil. by destruct (decide (P x)).
  - destruct (key_leb (key x) (key y)) eqn:Hxy.
    + rewrite filter_cons. destruct (decide (P x)) as [Hx|Hx]; [|done].
      assert (∀ k, (∀ z, z ∈ k → key_leb (key x) (key z) = true) →
                   insert_by key x k = x :: k) as Hhead.
      { intros [|z k] Hk; [done|]. simpl. by rewrite Hk by left. }
      rewrite Hhead; [done|]. intros z [_ Hz]%list_elem_of_filter.
      apply elem_of_cons in Hz as [->|Hz]; [done|].
      rewrite Forall_forall in Hy. eapply key_leb_trans; [exact Hxy|].
      by apply Hy.
    + rewrite !(filter_cons _ y), IH.
      destruct (decide (P y)), (decide (P x)); simpl; try done.
      by rewrite Hxy.
Qed.

Lemma filter_sorted_by key (P : item → Prop) `{∀ x, Decision (P x)} l :
  filter P (sorted_by key l) = sorted_by key (filter P l).
Proof.
  induction l as [|x l IH]; simpl; [done|].
  rewrite filter_insert_by by apply ascending_sorted_by.
  rewrite filter_cons, IH. by destruct (decide (P x)).
Qed.

Lemma omap_filter_is_Some {A B} (f : A → option B) (l : list A) :
  omap f l = omap f (filter (fun x => is_Some (f x)) l).
Proof.
  induction l as [|x l IH]; [done|]. rewrite filter_cons.
  assert (∀ k, omap f (x :: k) =
               match f x with Some y => y :: omap f k | None => omap f k end)
    as Hcons by done.
  destruct (decide (is_Some (f x))) as [[b Hx]|Hx].
  - by rewrite !Hcons, Hx, IH.
  - rewrite Hcons, IH. destruct (f x) as [b|]; [|done].
    destruct Hx. by eexists.
Qed.

(** What a row gives to a record is read in the order of the query, and
    only from the rows that give something to that key. *)
Lemma omap_sorted_by {B} key (f : item → option B) l l' :
  filter (fun x => is_Some (f x)) l = filter (fun x => is_Some (f x)) l' →
  omap f (sorted_by key l) = omap f (sorted_by key l').
Proof.
  intros Hf.
  rewrite (omap_filter_is_Some f (sorted_by key l)),
          (omap_filter_is_Some f (sorted_by key l')).
  by rewrite !filter_sorted_by, Hf.
Qed.

(** ** Relations that every step of a computation respects *)

Section Steps.

Variable R : world → world → Prop.
Hypothesis R_refl : ∀ w, R w w.
Hypothesis R_trans : ∀ w1 w2 w3, R w1 w2 → R w2 w3 → R w1 w3.

Lemma steps_ret {A} (a : A) : steps R (ret a).
Proof. intros w. apply R_refl. Qed.

Lemma steps_raise {A} e : steps R (@raise A e).
Proof. intros w. apply R_refl. Qed.

Lemma steps_lift {A} (r : result A) : steps R (lift r).
Proof. intros w. apply R_refl. Qed.

Lemma steps_bind {A B} (c : M A) (k : A → M B) :
  steps R c → (∀ a, steps R (k a)) → steps R (bind c k).
Proof.
  intros Hc Hk w. unfold bind. specialize (Hc w).
  destruct (c w) as [[a|e] w1]; simpl in *; [|done].
  eapply R_trans; [exact Hc | apply Hk].
Qed.

Lemma steps_try_except {A} (c : M A) (h : exn → M A) :
  steps R c → (∀ e, steps R (h e)) → steps R (try_except c h).
Proof.
  intros Hc Hh w. unfold try_except. specialize (Hc w).
  destruct (c w) as [[a|e] w1]; simpl in *; [done|].
  eapply R_trans; [exact Hc | apply Hh].
Qed.

Lemma steps_for_each {A} (l : list A) (f : A → M unit) :
  (∀ x, x ∈ l → steps R (f x)) → steps R (for_each l f).
Proof.
  induction l as [|x l IH]; intros Hf; simpl.
  - apply steps_ret.
  - apply steps_bind; [apply Hf; left|].
    intros _. apply IH. intros y Hy. apply Hf. by right.
Qed.

Lemma steps_map_each {A B} (l : list A) (f : A → M B) :
  (∀ x, steps R (f x)) → steps R (map_each l f).
Proof.
  intros Hf. induction l as [|x l IH]; simpl.
  - apply steps_ret.
  - apply steps_bind; [apply Hf|]. intros y.
    apply steps_bind; [apply IH|]. intros ys. apply steps_ret.
Qed.

Lemma steps_getitem {A} (l : list A) i : steps R (getitem l i).
Proof. unfold getitem. destruct (l !! i); [apply steps_ret | apply steps_raise]. Qed.

Lemma steps_dict_getitem d k : steps R (dict_getitem d k).
Proof.
  unfold dict_getitem. destruct (d !! k); [apply steps_ret | apply steps_raise].
Qed.

End Steps.

(** The relations used below are preorders. *)

Lemma shrinks_refl w : shrinks w w.
Proof. by intros x. Qed.
Lemma shrinks_trans w1 w2 w3 : shrinks w1 w2 → shrinks w2 w3 → shrinks w1 w3.
Proof. intros H1 H2 x Hx. auto. Qed.

Lemma keeps_rows_refl cid w : keeps_rows cid w w.
Proof. done. Qed.
Lemma keeps_rows_trans cid w1 w2 w3 :
  keeps_rows cid w1 w2 → keeps_rows cid w2 w3 → keeps_rows cid w1 w3.
Proof. unfold keeps_rows. congruence. Qed.

Lemma pushes_app a b : pushes (a ++ b) = pushes a ++ pushes b.
Proof. apply omap_app. Qed.
Lemma deliveries_app a b : deliveries (a ++ b) = deliveries a ++ deliveries b.
Proof. apply omap_app. Qed.

Lemma quiet_refl w : quiet w w.
Proof. exists []. by rewrite app_nil_r. Qed.
Lemma quiet_trans w1 w2 w3 : quiet w1 w2 → quiet w2 w3 → quiet w1 w3.
Proof.
  intros (a & Ha & Hpa) (b & Hb & Hpb). exists (a ++ b).
  rewrite Hb, Ha, <- app_assoc, pushes_app, Hpa, Hpb. done.
Qed.

Create HintDb steps.
#[local] Hint Resolve shrinks_refl shrinks_trans keeps_rows_refl
  keeps_rows_trans quiet_refl quiet_trans : steps.

(** ** What the storage and the sender do to the world, whatever the
       environment answers *)

Section Behaviour.

Variable E : env.

Lemma db_call_ok {A} op (f : list item → A * list item) w :
  db_fails E (clock w) = false →
  db_call E op f w =
    (Ok (f (table w)).1,
     World (f (table w)).2 (S (clock w)) (trace w ++ [Db op true])).
Proof. unfold db_call. intros ->. by destruct (f (table w)). Qed.

Lemma db_call_fails {A} op (f : list item → A * list item) w :
  db_fails E (clock w) = true →
  db_call E op f w =
    (Raise ClientError,
     World (table w) (S (clock w)) (trace w ++ [Db op false])).
Proof. unfold db_call. by intros ->. Qed.

Lemma db_call_shrinks {A} op (f : list item → A * list item) :
  (∀ t x, x ∈ (f t).2 → x ∈ t) → steps shrinks (db_call E op f).
Proof.
  intros Hf w x. unfold db_call.
  destruct (db_fails E (clock w)); simpl; [done|].
  specialize (Hf (table w) x). by destruct (f (table w)).
Qed.

Lemma db_call_keeps_rows {A} cid op (f : list item → A * list item) :
  (∀ t, rows_of cid (f t).2 = rows_of cid t) →
  steps (keeps_rows cid) (db_call E op f).
Proof.
  intros Hf w. unfold db_call, keeps_rows.
  destruct (db_fails E (clock w)); simpl; [done|].
  specialize (Hf (table w)). by destruct (f (table w)).
Qed.

Lemma db_call_quiet {A} op (f : list item → A * list item) :
  steps quiet (db_call E op f).
Proof.
  intros w. unfold db_call.
  destruct (db_fails E (clock w)); [|destruct (f (table w))];
    simpl; by eexists [_].
Qed.

Lemma print_quiet e : steps quiet (print e).
Proof. intros w. by eexists [_]. Qed.

Lemma delete_item_shrinks pk sk : steps shrinks (delete_item E pk sk).
Proof.
  apply db_call_shrinks. simpl. intros t x.
  rewrite elem_of_table_delete. tauto.
Qed.

Lemma delete_item_keeps_rows cid pk sk :
  pk ≠ cid → steps (keeps_rows cid) (delete_item E pk sk).
Proof.
  intros Hne. apply db_call_keeps_rows. simpl. intros t.
  unfold rows_of, table_delete. rewrite list_filter_filter.
  apply filter_elem_of_ext. intros x _. split; [tauto|].
  intros Hx. split; [done|]. intros ->. simpl in Hx. done.
Qed.

Lemma query_pk_shrinks pk : steps shrinks (query_pk E pk).
Proof. by apply db_call_shrinks. Qed.

Lemma query_pk_keeps_rows cid pk : steps (keeps_rows cid) (query_pk E pk).
Proof. by apply db_call_keeps_rows. Qed.

Lemma query_index_shrinks sk : steps shrinks (query_index E sk).
Proof. by apply db_call_shrinks. Qed.

Lemma query_index_keeps_rows cid sk : steps (keeps_rows cid) (query_index E sk).
Proof. by apply db_call_keeps_rows. Qed.

(** [delete_connection]: only rows are lost, only rows of that
    connection, and nothing is pushed. *)

Lemma delete_connection_shrinks cid : steps shrinks (delete_connection E cid).
Proof.
  apply steps_try_except; eauto with steps.
  - apply steps_bind; eauto using query_pk_shrinks with steps.
    intros items. apply steps_for_each; eauto with steps.
    intros it _. apply delete_item_shrinks.
  - intros e w x. done.
Qed.

Lemma delete_connection_keeps_rows cid c :
  c ≠ cid → steps (keeps_rows cid) (delete_connection E c).
Proof.
  intros Hne. apply steps_try_except; eauto with steps.
  - apply steps_bind; eauto using query_pk_keeps_rows with steps.
    intros items. apply steps_for_each; eauto with steps.
    intros it _. by apply delete_item_keeps_rows.
  - intros e w. done.
Qed.

Lemma delete_connection_quiet cid : steps quiet (delete_connection E cid).
Proof.
  apply steps_try_except; eauto using print_quiet with steps.
  apply steps_bind; eauto using @db_call_quiet with steps.
  intros items. apply steps_for_each; eauto with steps.
  intros it _. apply db_call_quiet.
Qed.

(** [delete_connection] never raises. *)
Lemma delete_connection_returns cid w :
  (delete_connection E cid w).1 = Ok tt.
Proof.
  unfold delete_connection, try_except.
  destruct (bind _ _ w) as [[[]|e] w1]; reflexivity.
Qed.

End Behaviour.

Section Sender.

Variable E : env.

Lemma send_delivered c m w :
  ws_push E (clock w) c = Delivered →
  send E c m w =
    (Ok tt, World (table w) (S (clock w)) (trace w ++ [Push c m Delivered])).
Proof. unfold send, websocket_api_send. by intros ->. Qed.

Lemma send_failed c m w :
  ws_push E (clock w) c = PushFailed →
  send E c m w =
    (Raise WebsocketError,
     World (table w) (S (clock w)) (trace w ++ [Push c m PushFailed])).
Proof. unfold send, websocket_api_send. by intros ->. Qed.

Lemma send_gone c m w :
  ws_push E (clock w) c = PeerGone →
  send E c m w =
    delete_connection E c
      (World (table w) (S (clock w)) (trace w ++ [Push c m PeerGone])).
Proof. unfold send, websocket_api_send. by intros ->. Qed.

Lemma send_shrinks c m : steps shrinks (send E c m).
Proof.
  intros w. destruct (ws_push E (clock w) c) eqn:Hp.
  - rewrite send_delivered by done. by intros x.
  - rewrite send_gone by done.
    intros x Hx. by apply delete_connection_shrinks in Hx.
  - rewrite send_failed by done. by intros x.
Qed.

Lemma send_keeps_rows cid c m :
  (∀ n, ws_push E n cid ≠ PeerGone) → steps (keeps_rows cid) (send E c m).
Proof.
  intros Hlive w. destruct (ws_push E (clock w) c) eqn:Hp.
  - by rewrite send_delivered.
  - rewrite send_gone by done.
    assert (c ≠ cid) as Hne by (intros ->; by eapply Hlive).
    exact (delete_connection_keeps_rows E cid c Hne
             (World (table w) (S (clock w)) (trace w ++ [Push c m PeerGone]))).
  - by rewrite send_failed.
Qed.

Lemma broadcast_shrinks l m : steps shrinks (broadcast E l m).
Proof.
  apply steps_for_each; eauto with steps. intros c _. apply send_shrinks.
Qed.

Lemma broadcast_keeps_rows cid l m :
  (∀ n, ws_push E n cid ≠ PeerGone) →
  steps (keeps_rows cid) (broadcast E l m).
Proof.
  intros H. apply steps_for_each; eauto with steps.
  intros c _. by apply send_keeps_rows.
Qed.

(** A send either returns or raises the transport's other error. *)
Lemma send_result c m w :
  (send E c m w).1 = Ok tt ∨ (send E c m w).1 = Raise WebsocketError.
Proof.
  destruct (ws_push E (clock w) c) eqn:Hp.
  - rewrite send_delivered by done. by left.
  - rewrite send_gone by done. left. apply delete_connection_returns.
  - rewrite send_failed by done. by right.
Qed.

End Sender.

(** ** Store errors *)

Section StoreErrors.

Variable E : env.

(** The loop of [delete_connection] stops at the first call that fails;
    until then every call succeeded. *)
Lemma delete_loop_trace cid items w :
  ∃ evs,
    trace (for_each items (fun it => delete_item E cid (SK it)) w).2
      = trace w ++ evs ∧
    match (for_each items (fun it => delete_item E cid (SK it)) w).1 with
    | Ok _ => ∀ op, Db op false ∉ evs
    | Raise e => e = ClientError
    end.
Proof.
  revert w. induction items as [|it items IH]; intros w; simpl.
  - exists []. rewrite app_nil_r. split; [done|]. intros op H. inversion H.
  - unfold bind, delete_item at 1 3. unfold db_call.
    destruct (db_fails E (clock w)); simpl.
    + by eexists [_].
    + destruct (IH (World (table_delete (Item cid (SK it)) (table w))
                          (S (clock w))
                          (trace w ++ [Db (DeleteItem cid (SK it)) true])))
        as (evs & Htr & Hres).
      exists (Db (DeleteItem cid (SK it)) true :: evs).
      rewrite Htr. simpl. rewrite <- app_assoc. split; [done|].
      destruct (for_each _ _ _).1; [|done].
      intros op [H|H]%elem_of_cons; [done | by eapply Hres].
Qed.

Lemma delete_connection_logs cid w :
  ∃ evs,
    trace (delete_connection E cid w).2 = trace w ++ evs ∧
    ∀ op, Db op false ∈ evs → last evs = Some (Printed ClientError).
Proof.
  unfold delete_connection, try_except, bind, query_pk, db_call.
  destruct (db_fails E (clock w)); simpl.
  - by eexists [_; _]; rewrite <- app_assoc.
  - pose proof (delete_loop_trace cid
                  (sorted_by SK (filter (fun x => PK x = cid) (table w)))
                  (World (table w) (S (clock w))
                         (trace w ++ [Db (QueryPK cid) true])))
      as (evs & Htr & Hres).
    destruct (for_each _ _ _) as [[[]|e] w1]; simpl in *.
    + exists (Db (QueryPK cid) true :: evs).
      rewrite Htr, <- app_assoc. split; [done|].
      intros op [H|H]%elem_of_cons; [done | by apply Hres in H].
    + rewrite Hres. clear Hres. exists (Db (QueryPK cid) true :: evs ++ [Printed ClientError]).
      rewrite Htr, <- !app_assoc. split; [done|].
      intros op _. change (last ([Db (QueryPK cid) true] ++ evs ++ [Printed ClientError])
                        = Some (Printed ClientError)).
      by rewrite app_assoc, last_snoc.
Qed.

(** C9. [delete_connection] returns normally whatever the table answers,
    and when a call of the cleanup fails the error was printed last; an
    error of the table at the first call of every other operation of the
    storage layer (and at the second call of [set_username]) comes out of
    that operation as an exception. *)
Theorem delete_connection_swallows_store_errors cid w :
  (delete_connection E cid w).1 = Ok tt ∧
  (∃ evs,
      trace (delete_connection E cid w).2 = trace w ++ evs ∧
      ∀ op, Db op false ∈ evs → last evs = Some (Printed ClientError)) ∧
  (db_fails E (clock w) = true →
     delete_connection E cid w =
       (Ok tt,
        World (table w) (S (clock w))
              (trace w ++ [Db (QueryPK cid) false; Printed ClientError])) ∧
     ∀ old_name username room,
       (create_connection E cid w).1 = Raise ClientError ∧
       (set_username E cid old_name username w).1 = Raise ClientError ∧
       (set_room E cid room w).1 = Raise ClientError ∧
       (remove_room E cid room w).1 = Raise ClientError ∧
       (get_connection_ids_by_room E room w).1 = Raise ClientError ∧
       (get_record_by_connection E cid w).1 = Raise ClientError ∧
       (list_rooms E w).1 = Raise ClientError) ∧
  (db_fails E (clock w) = false → db_fails E (S (clock w)) = true →
     ∀ old_name username,
       (set_username E cid old_name username w).1 = Raise ClientError).
Proof.
  split; [apply delete_connection_returns|].
  split; [apply delete_connection_logs|].
  split.
  - intros Hf. split.
    + unfold delete_connection, try_except, bind, query_pk.
      rewrite db_call_fails by done. unfold print. simpl.
      by rewrite <- app_assoc.
    + intros old_name username room.
      unfold create_connection, set_username, set_room, remove_room,
        get_connection_ids_by_room, get_record_by_connection, list_rooms,
        bind, put_item, delete_item, query_index, query_pk, scan.
      by rewrite !db_call_fails.
  - intros Hok Hf old_name username.
    unfold set_username, bind, delete_item, put_item.
    rewrite db_call_ok by done. simpl.
    by rewrite db_call_fails.
Qed.

End StoreErrors.

(** ** Self-heal: what [delete_connection] leaves when the table answers *)

Section SelfHeal.

Variable E : env.
Hypothesis db_ok : ∀ n, db_fails E n = false.

Lemma delete_loop_ok cid items w :
  (for_each items (fun it => delete_item E cid (SK it)) w).1 = Ok tt ∧
  table (for_each items (fun it => delete_item E cid (SK it)) w).2 =
    foldl (fun t it => table_delete (Item cid (SK it)) t) (table w) items.
Proof.
  revert w. induction items as [|it items IH]; intros w; simpl; [done|].
  unfold bind, delete_item at 1 3. rewrite db_call_ok by apply db_ok. simpl.
  apply IH.
Qed.

Lemma delete_rows_of cid items t :
  (∀ it, it ∈ items → PK it = cid) →
  foldl (fun t it => table_delete (Item cid (SK it)) t) t items =
    filter (fun x => x ∉ items) t.
Proof.
  revert t. induction items as [|it items IH]; intros t Hpk; simpl.
  - symmetry. apply filter_all. intros x _ H. inversion H.
  - rewrite IH by (intros y Hy; apply Hpk; by right).
    unfold table_delete. rewrite list_filter_filter.
    apply filter_elem_of_ext. intros x _.
    assert (Item cid (SK it) = it) as ->.
    { rewrite <- (Hpk it) by left. by destruct it. }
    rewrite not_elem_of_cons. tauto.
Qed.

Lemma delete_connection_ok cid w :
  (delete_connection E cid w).1 = Ok tt ∧
  table (delete_connection E cid w).2 =
    filter (fun x => PK x ≠ cid) (table w).
Proof.
  split; [apply delete_connection_returns|].
  unfold delete_connection, try_except, bind, query_pk.
  rewrite db_call_ok by apply db_ok. simpl.
  pose proof (delete_loop_ok cid
                (sorted_by SK (filter (fun x => PK x = cid) (table w)))
                (World (table w) (S (clock w))
                       (trace w ++ [Db (QueryPK cid) true]))) as [Hr Ht].
  destruct (for_each _ _ _) as [[[]|e] w1]; simpl in *; [|done].
  rewrite Ht, delete_rows_of.
  - apply filter_elem_of_ext. intros x Hx.
    rewrite elem_of_sorted_by, list_elem_of_filter. tauto.
  - by intros it [? _]%elem_of_sorted_by%list_elem_of_filter.
Qed.

End SelfHeal.

(** ** Broadcast *)

Lemma deliveries_of_pushes evs :
  deliveries evs =
    omap (fun p => match p with
                   | (c, m, Delivered) => Some (c, m)
                   | _ => None
                   end) (pushes evs).
Proof.
  induction evs as [|e evs IH]; [done|].
  destruct e as [op ok|c m r|e]; simpl; try done.
  destruct r; simpl; [f_equal|..]; exact IH.
Qed.

Lemma length_filter_ne (h : string) (l : list string) :
  NoDup l → h ∈ l →
  List.length (filter (fun c => c ≠ h) l) = (List.length l - 1)%nat.
Proof.
  induction 1 as [|c l Hc Hnd IH]; intros Hin; [inversion Hin|].
  destruct (decide (c = h)) as [->|Hne].
  - rewrite filter_cons_False by (intros H; by apply H).
    rewrite filter_all; [simpl; lia|]. intros x Hx ->. done.
  - rewrite filter_cons_True by done. simpl.
    apply elem_of_cons in Hin as [Heq|Hin]; [congruence|].
    rewrite IH by done. destruct l; [inversion Hin | simpl; lia].
Qed.

Section Broadcast.

Variable E : env.

(** A send pushes once; what follows in the trace is the cleanup, which
    pushes nothing and happens only when the peer is gone. *)
Lemma send_trace c m w :
  ∃ evs,
    trace (send E c m w).2 =
      trace w ++ Push c m (ws_push E (clock w) c) :: evs ∧
    pushes evs = [] ∧
    (ws_push E (clock w) c ≠ PeerGone →
       evs = [] ∧ table (send E c m w).2 = table w).
Proof.
  destruct (ws_push E (clock w) c) eqn:Hp.
  - rewrite send_delivered by done. by exists [].
  - rewrite send_gone by done.
    destruct (delete_connection_quiet E c
                (World (table w) (S (clock w)) (trace w ++ [Push c m PeerGone])))
      as (evs & Htr & Hq).
    exists evs. rewrite Htr. simpl. by rewrite <- app_assoc.
  - rewrite send_failed by done. by exists [].
Qed.

Lemma pushed_app a b : pushed (a ++ b) = pushed a ++ pushed b.
Proof. unfold pushed. by rewrite pushes_app, fmap_app. Qed.

(** A broadcast in which no push fails for another reason than a peer
    gone returns, and every handle of the list was pushed the message
    once, in the order of the list. *)
Lemma broadcast_pushes l m w :
  (∀ n c, c ∈ l → ws_push E n c ≠ PushFailed) →
  (broadcast E l m w).1 = Ok tt ∧
  ∃ evs,
    trace (broadcast E l m w).2 = trace w ++ evs ∧
    pushed evs = (fun c => (c, m)) <$> l.
Proof.
  revert w. induction l as [|c l IH]; intros w Hws.
  - split; [done|]. exists []. by rewrite app_nil_r.
  - unfold broadcast. simpl. unfold bind.
    destruct (send_trace c m w) as (evs1 & Htr1 & Hq1 & _).
    assert ((send E c m w).1 = Ok tt) as Hok.
    { destruct (send_result E c m w) as [|Hres]; [done|].
      unfold send, websocket_api_send in Hres.
      pose proof (Hws (clock w) c ltac:(left)) as Hc.
      destruct (ws_push E (clock w) c); simpl in Hres; try done.
      by rewrite delete_connection_returns in Hres. }
    destruct (send E c m w) as [r w1]. simpl in *. subst r.
    destruct (IH w1) as (Hr & evs & Htr & Hp).
    { intros n c' Hc'. apply Hws. by right. }
    split; [exact Hr|].
    exists (Push c m (ws_push E (clock w) c) :: evs1 ++ evs).
    fold (broadcast E l m). rewrite Htr, Htr1, <- app_assoc. split; [done|].
    change (Push c m ?r :: evs1 ++ evs) with ([Push c m r] ++ evs1 ++ evs).
    rewrite !pushed_app, Hp. unfold pushed at 2. by rewrite Hq1.
Qed.

Variable h : string.

Lemma broadcast_with_dead l m w :
  (∀ n c, c ∈ l → ws_push E n c = outcome h c) →
  (broadcast E l m w).1 = Ok tt ∧
  ∃ evs,
    trace (broadcast E l m w).2 = trace w ++ evs ∧
    pushes evs = (fun c => (c, m, outcome h c)) <$> l.
Proof.
  revert w. induction l as [|c l IH]; intros w Hws.
  - split; [done|]. exists []. by rewrite app_nil_r.
  - unfold broadcast. simpl. unfold bind.
    destruct (send_trace c m w) as (evs1 & Htr1 & Hq1 & _).
    pose proof (send_result E c m w) as Hres.
    rewrite (Hws (clock w) c) in Htr1 by left.
    assert ((send E c m w).1 = Ok tt) as Hok.
    { destruct Hres as [|Hres]; [done|].
      unfold send, websocket_api_send in Hres.
      rewrite (Hws (clock w) c) in Hres by left.
      unfold outcome in Hres. destruct (decide (c = h)); simpl in Hres; [|done].
      by rewrite delete_connection_returns in Hres. }
    destruct (send E c m w) as [r w1]. simpl in *. subst r.
    destruct (IH w1) as (Hr & evs & Htr & Hp).
    { intros n c' Hc'. apply Hws. by right. }
    split; [exact Hr|].
    exists (Push c m (outcome h c) :: evs1 ++ evs).
    fold (broadcast E l m). rewrite Htr, Htr1, <- app_assoc. split; [done|].
    change (Push c m (outcome h c) :: evs1 ++ evs)
      with ([Push c m (outcome h c)] ++ evs1 ++ evs).
    by rewrite !pushes_app, Hq1, Hp.
Qed.

Lemma broadcast_with_dead_table l m w :
  (∀ n, db_fails E n = false) →
  (∀ n c, c ∈ l → ws_push E n c = outcome h c) →
  table (broadcast E l m w).2 =
    if decide (h ∈ l) then filter (fun x => PK x ≠ h) (table w) else table w.
Proof.
  intros Hdb. revert w. induction l as [|c l IH]; intros w Hws.
  - by rewrite decide_False by (intros H; inversion H).
  - unfold broadcast. simpl. unfold bind. fold (broadcast E l m).
    assert (∀ n c', c' ∈ l → ws_push E n c' = outcome h c') as Hws'.
    { intros n c' Hc'. apply Hws. by right. }
    pose proof (Hws (clock w) c ltac:(left)) as Hc. unfold outcome in Hc.
    destruct (decide (c = h)) as [->|Hne].
    + rewrite send_gone by done.
      destruct (delete_connection_ok E Hdb h
                  (World (table w) (S (clock w))
                         (trace w ++ [Push h m PeerGone]))) as [Hr Ht].
      destruct (delete_connection E h _) as [r w1]. simpl in *. subst r.
      rewrite (decide_True (P := h ∈ h :: l)) by left.
      rewrite IH, Ht by done.
      destruct (decide (h ∈ l)); [|done].
      rewrite list_filter_filter. apply filter_elem_of_ext. tauto.
    + rewrite send_delivered by done. rewrite IH by done. simpl.
      destruct (decide (h ∈ l)) as [Hin|Hin].
      * rewrite decide_True; [done | by right].
      * rewrite decide_False; [done|].
        intros [?|?]%elem_of_cons; congruence.
Qed.

(** C5. A broadcast to [N] distinct handles of which exactly [h] is dead
    (every push to it finds the peer gone, every push to another handle of
    the list is delivered) returns normally; every handle of the list is
    pushed to once, in order; the messages delivered are those to the
    [N - 1] other handles; and, when the table answers, the rows of [h]
    are gone from the table and no other row is touched. *)
Theorem broadcast_one_dead l m w :
  NoDup l → h ∈ l →
  (∀ n, ws_push E n h = PeerGone) →
  (∀ n c, c ∈ l → c ≠ h → ws_push E n c = Delivered) →
  (broadcast E l m w).1 = Ok tt ∧
  (∃ evs,
     trace (broadcast E l m w).2 = trace w ++ evs ∧
     pushes evs = (fun c => (c, m, outcome h c)) <$> l ∧
     deliveries evs = (fun c => (c, m)) <$> filter (fun c => c ≠ h) l ∧
     List.length (deliveries evs) = (List.length l - 1)%nat) ∧
  ((∀ n, db_fails E n = false) →
     table (broadcast E l m w).2 = filter (fun x => PK x ≠ h) (table w)).
Proof.
  intros Hnd Hin Hdead Hlive.
  assert (∀ n c, c ∈ l → ws_push E n c = outcome h c) as Hws.
  { intros n c Hc. unfold outcome. destruct (decide (c = h)) as [->|]; auto. }
  destruct (broadcast_with_dead l m w Hws) as (Hr & evs & Htr & Hp).
  split; [exact Hr|]. split.
  - exists evs. split; [exact Htr|]. split; [exact Hp|].
    assert (deliveries evs = (fun c => (c, m)) <$> filter (fun c => c ≠ h) l)
      as Hd.
    { rewrite deliveries_of_pushes, Hp. clear.
      induction l as [|c l' IH]; [done|]. rewrite filter_cons. cbn.
      unfold outcome at 1. destruct (decide (c = h)) as [->|Hne].
      - rewrite decide_False by (intros H; by apply H). exact IH.
      - rewrite decide_True by done. cbn. f_equal. exact IH. }
    split; [exact Hd|].
    by rewrite Hd, length_fmap, length_filter_ne.
  - intros Hdb. rewrite broadcast_with_dead_table by done.
    by rewrite decide_True.
Qed.

End Broadcast.

(** ** Sessions: the record of a connection, read off the table *)

Lemma record_of_lookup rows d rec key v :
  record_of rows d = Ok rec → rec !! key = Some v →
  d !! key = Some v ∨
  ∃ it, it ∈ rows ∧ Py.split1 "_" (SK it) = [key; v].
Proof.
  revert d. induction rows as [|it rows IH]; intros d; simpl.
  - intros [= ->]. by left.
  - destruct (Py.split1 "_" (SK it)) as [|k [|v' rest]] eqn:Hs; try done.
    destruct (split1_two _ _ _ _ _ Hs) as [-> _].
    intros Hrec Hv. destruct (IH _ Hrec Hv) as [Hd|(it' & Hin & Hit')].
    + destruct (decide (k = key)) as [->|Hne].
      * rewrite lookup_insert_eq in Hd. injection Hd as ->.
        right. exists it. split; [left | done].
      * rewrite lookup_insert_ne in Hd by done. by left.
    + right. exists it'. split; [by right | done].
Qed.

Lemma record_of_is_Some rows d rec key :
  record_of rows d = Ok rec →
  is_Some (d !! key) ∨ (∃ it v, it ∈ rows ∧ Py.split1 "_" (SK it) = [key; v]) →
  is_Some (rec !! key).
Proof.
  revert d. induction rows as [|it rows IH]; intros d; simpl.
  - intros [= ->] [H|(it & v & Hin & _)]; [done | inversion Hin].
  - destruct (Py.split1 "_" (SK it)) as [|k [|v' rest]] eqn:Hs; try done.
    destruct (split1_two _ _ _ _ _ Hs) as [-> _].
    intros Hrec H. apply (IH _ Hrec).
    destruct H as [H|(it' & v & Hin & Hit')].
    + left. destruct (decide (k = key)) as [->|Hne].
      * rewrite lookup_insert_eq. by eexists.
      * by rewrite lookup_insert_ne.
    + apply elem_of_cons in Hin as [->|Hin].
      * left. rewrite Hs in Hit'. injection Hit' as -> ->.
        rewrite lookup_insert_eq. by eexists.
      * right. by exists it', v.
Qed.

Lemma session_room_in t cid rec r :
  session t cid = Ok rec → rec !! "room" = Some r → in_room t cid r.
Proof.
  intros Hs Hr.
  destruct (record_of_lookup _ _ _ _ _ Hs Hr) as [H|(it & Hin & Hit)]; [done|].
  apply elem_of_sorted_by, list_elem_of_filter in Hin as [Hpk Hin].
  apply split1_two in Hit as [_ Hsk].
  unfold in_room. destruct it as [pk sk]. simpl in *. by subst.
Qed.

Lemma session_named_in t cid rec u :
  session t cid = Ok rec → rec !! "username" = Some u → named t cid u.
Proof.
  intros Hs Hr.
  destruct (record_of_lookup _ _ _ _ _ Hs Hr) as [H|(it & Hin & Hit)]; [done|].
  apply elem_of_sorted_by, list_elem_of_filter in Hin as [Hpk Hin].
  apply split1_two in Hit as [_ Hsk].
  unfold named. destruct it as [pk sk]. simpl in *. by subst.
Qed.

Lemma session_in_room t cid rec r :
  session t cid = Ok rec → in_room t cid r → is_Some (rec !! "room").
Proof.
  intros Hs Hin. apply (record_of_is_Some _ _ _ _ Hs). right.
  exists (Item cid ("room_" +:+ r)), r. split; [|done].
  by apply elem_of_sorted_by, list_elem_of_filter.
Qed.

Lemma session_named t cid rec u :
  session t cid = Ok rec → named t cid u → is_Some (rec !! "username").
Proof.
  intros Hs Hin. apply (record_of_is_Some _ _ _ _ Hs). right.
  exists (Item cid ("username_" +:+ u)), u. split; [|done].
  by apply elem_of_sorted_by, list_elem_of_filter.
Qed.

(** The members of a room are the connections that have its row. *)
Lemma elem_of_members t room c : c ∈ members t room ↔ in_room t c room.
Proof.
  unfold members, in_room. rewrite list_elem_of_fmap. split.
  - intros (x & -> & [Hsk Hx]%elem_of_sorted_by%list_elem_of_filter).
    destruct x as [pk sk]. simpl in *. by subst.
  - intros Hin. exists (Item c ("room_" +:+ room)). split; [done|].
    by apply elem_of_sorted_by, list_elem_of_filter.
Qed.

(** With at most one room, the record's room is the room of the row. *)
Lemma session_room t cid rec r :
  session t cid = Ok rec → one_room t cid →
  rec !! "room" = Some r ↔ in_room t cid r.
Proof.
  intros Hs H1. split; [by apply session_room_in|].
  intros Hin. destruct (session_in_room _ _ _ _ Hs Hin) as [r' Hr'].
  rewrite Hr'. f_equal. apply H1; [|done]. by eapply session_room_in.
Qed.

Lemma session_no_room t cid rec :
  session t cid = Ok rec →
  rec !! "room" = None ↔ ∀ r, ¬ in_room t cid r.
Proof.
  intros Hs. split.
  - intros Hn r Hin. destruct (session_in_room _ _ _ _ Hs Hin) as [? ?].
    congruence.
  - intros Hn. destruct (rec !! "room") as [r|] eqn:Hr; [|done].
    destruct (Hn r). by eapply session_room_in.
Qed.

(** The session depends on the rows of the connection only. *)
Lemma session_ext t t' cid :
  rows_of cid t' = rows_of cid t → session t' cid = session t cid.
Proof. unfold session. by intros ->. Qed.

(** ** Dispatch *)

Section Dispatch.

Variable E : env.

Lemma get_record_ok cid w :
  db_fails E (clock w) = false →
  get_record_by_connection E cid w = (session (table w) cid, after_query cid w).
Proof.
  intros Hdb. unfold get_record_by_connection, bind, query_pk.
  by rewrite db_call_ok.
Qed.

(** A connection whose record has no [username] makes [handle] raise. *)
Lemma handle_no_username cid msg w rec :
  db_fails E (clock w) = false →
  session (table w) cid = Ok rec → rec !! "username" = None →
  handle E cid msg w = (Raise (KeyError "username"), after_query cid w).
Proof.
  intros Hdb Hs Hu. unfold handle, bind.
  rewrite get_record_ok, Hs by done. unfold dict_getitem. by rewrite Hu.
Qed.

Lemma handle_anonymous cid msg w rec :
  db_fails E (clock w) = false →
  session (table w) cid = Ok rec → rec !! "username" = Some "" →
  handle E cid msg w = _handle_login_message E cid msg (after_query cid w).
Proof.
  intros Hdb Hs Hu. unfold handle, bind.
  rewrite get_record_ok, Hs by done. unfold dict_getitem. by rewrite Hu.
Qed.

Lemma handle_logged_in cid msg w rec u :
  db_fails E (clock w) = false →
  session (table w) cid = Ok rec → rec !! "username" = Some u → u ≠ "" →
  handle E cid msg w = _handle_message E cid msg rec (after_query cid w).
Proof.
  intros Hdb Hs Hu Hne. unfold handle, bind.
  rewrite get_record_ok, Hs by done. unfold dict_getitem. rewrite Hu.
  unfold ret. by rewrite decide_False.
Qed.

Lemma dispatch_nick cid rec :
  _handle_message E cid "/nick" rec = _nick E cid [] rec.
Proof. reflexivity. Qed.

Lemma dispatch_quit cid rec :
  _handle_message E cid "/quit" rec = _quit E cid [] rec.
Proof. reflexivity. Qed.

Lemma dispatch_join_bare cid rec :
  _handle_message E cid "/join" rec = _join E cid [] rec.
Proof. reflexivity. Qed.

Lemma dispatch_join cid rec room :
  Py.contains " " room = false →
  _handle_message E cid ("/join " +:+ room) rec = _join E cid [room] rec.
Proof.
  intros H. unfold _handle_message.
  change (Py.startswith "/" ("/join " +:+ room)) with true. cbv iota.
  change (Py.tail ("/join " +:+ room)) with ("join " +:+ room).
  unfold _handle_command.
  change (Py.split " " ("join " +:+ room)) with ("join" :: Py.split " " room).
  by rewrite (split_no_sep _ _ H).
Qed.

Lemma dispatch_nick_to cid rec nick :
  Py.contains " " nick = false →
  _handle_message E cid ("/nick " +:+ nick) rec = _nick E cid [nick] rec.
Proof.
  intros H. unfold _handle_message.
  change (Py.startswith "/" ("/nick " +:+ nick)) with true. cbv iota.
  change (Py.tail ("/nick " +:+ nick)) with ("nick " +:+ nick).
  unfold _handle_command.
  change (Py.split " " ("nick " +:+ nick)) with ("nick" :: Py.split " " nick).
  by rewrite (split_no_sep _ _ H).
Qed.

(** A command whose lower-cased name is not in the table ends in the call
    of the sender object itself. *)
Lemma dispatch_unknown cid msg rec :
  Py.startswith "/" msg = true →
  _command_table E !! Py.lower (default "" (head (Py.split " " (Py.tail msg))))
    = None →
  _handle_message E cid msg rec = raise TypeError.
Proof.
  intros Hs Hc. unfold _handle_message. rewrite Hs.
  unfold _handle_command, sender_call.
  destruct (Py.split " " (Py.tail msg)) as [|name args] eqn:Hsp.
  - by apply split_nonempty in Hsp.
  - change (default "" (head (name :: args))) with name in Hc.
    change (getitem (name :: args) 0) with (ret (A := string) name).
    unfold bind, ret. cbv beta iota zeta. by rewrite Hc.
Qed.

End Dispatch.

(** ** The username of a record (C1) *)

Section Username.

Variable E : env.

(** C1, as the code has it.  When the table answers, the record that
    [get_record_by_connection] returns has a [username] exactly when the
    table holds an identity row of the connection, and its value names
    such a row: the empty username is the stub row [username_], which
    [create_connection] writes for a connection that has no row.  [handle]
    takes the connection for anonymous when the username is empty, and
    raises [KeyError] when the record has no username.  After
    [delete_connection] the record is empty.  A connection with exactly
    one identity row has the name of that row. *)
Theorem username_of_record cid w rec :
  db_fails E (clock w) = false →
  session (table w) cid = Ok rec →
  get_record_by_connection E cid w = (Ok rec, after_query cid w) ∧
  (rec !! "username" = None ↔ ∀ name, ¬ named (table w) cid name) ∧
  (∀ u, rec !! "username" = Some u → named (table w) cid u) ∧
  (rec !! "username" = Some "" →
     ∀ msg, handle E cid msg w =
              _handle_login_message E cid msg (after_query cid w)) ∧
  (rec !! "username" = None →
     ∀ msg, handle E cid msg w =
              (Raise (KeyError "username"), after_query cid w)) ∧
  ((∀ x, x ∈ table w → PK x ≠ cid) →
     session (table (create_connection E cid w).2) cid
       = Ok {["username" := ""]}) ∧
  ((∀ n, db_fails E n = false) →
     session (table (delete_connection E cid w).2) cid = Ok ∅ ∧
     ∀ msg, (handle E cid msg (delete_connection E cid w).2).1 =
              Raise (KeyError "username")) ∧
  (∀ name, (∀ n, named (table w) cid n ↔ n = name) →
     rec !! "username" = Some name).
Proof.
  intros Hdb Hs. split; [by rewrite get_record_ok, Hs|].
  split.
  { split.
    - intros Hn name Hin.
      destruct (session_named _ _ _ _ Hs Hin) as [? ?]. congruence.
    - intros Hn. destruct (rec !! "username") as [u|] eqn:Hu; [|done].
      destruct (Hn u). by eapply session_named_in. }
  split; [intros u; by apply session_named_in|].
  split; [intros Hu msg; by eapply handle_anonymous|].
  split; [intros Hu msg; by eapply handle_no_username|].
  split.
  { intros Hnew. unfold create_connection, put_item.
    rewrite db_call_ok by done. simpl. unfold session.
    rewrite rows_of_table_put. unfold rows_of at 1.
    rewrite filter_none by (intros x Hx; by apply Hnew).
    unfold table_put. rewrite decide_False by (intros H; inversion H).
    simpl. by rewrite insert_empty. }
  split.
  2:{ intros name Hname.
      destruct (session_named _ _ _ name Hs) as [v Hv]; [by apply Hname|].
      rewrite Hv. f_equal. apply Hname. by eapply session_named_in. }
  intros Hall.
  destruct (delete_connection_ok E Hall cid w) as [_ Ht].
  assert (session (table (delete_connection E cid w).2) cid = Ok ∅) as Hs'.
  { unfold session, rows_of. rewrite Ht, list_filter_filter.
    rewrite (filter_elem_of_ext _ (fun _ => False)) by (intros x _; tauto).
    clear. by induction (table w). }
  split; [exact Hs'|]. intros msg.
  by rewrite (handle_no_username E cid msg _ ∅).
Qed.

End Username.

(** C1 fails as it is stated: once [c1] is disconnected the table holds
    no row of [c1], the record has no [username], so it is not the empty
    string, and [handle] raises. *)
Lemma username_after_delete_connection :
  w_gone = (delete_connection reliable "c1" w_lobby).2 ∧
  rows_of "c1" (table w_gone) = [] ∧
  ¬ (∃ rec, (get_record_by_connection reliable "c1" w_gone).1 = Ok rec ∧
            rec !! "username" = Some "") ∧
  (handle reliable "c1" "hello" w_gone).1 = Raise (KeyError "username").
Proof.
  split; [reflexivity|]. split; [by vm_compute|].
  split; [|by vm_compute].
  assert ((get_record_by_connection reliable "c1" w_gone).1 = Ok ∅) as H
    by (by vm_compute).
  intros (rec & Hrec & Hu). rewrite H in Hrec. injection Hrec as <-.
  by rewrite lookup_empty in Hu.
Qed.

(** ** Commands that the code does not answer (C2, C3) *)

Section Crashes.

Variable E : env.

(** Whatever the environment, a logged-in connection that sends a command
    whose lower-cased name is not in the table gets no reply: [handle]
    raises [TypeError] after the query that loaded the record. *)
Lemma unknown_command_raises cid msg w rec u :
  db_fails E (clock w) = false →
  session (table w) cid = Ok rec → rec !! "username" = Some u → u ≠ "" →
  Py.startswith "/" msg = true →
  _command_table E !! Py.lower (default "" (head (Py.split " " (Py.tail msg))))
    = None →
  handle E cid msg w = (Raise TypeError, after_query cid w).
Proof.
  intros Hdb Hs Hu Hne Hsl Hc.
  rewrite (handle_logged_in E cid msg w rec u) by done.
  by rewrite dispatch_unknown.
Qed.

(** Whatever the environment, [/join] without a room name makes [handle]
    raise [IndexError] after the query that loaded the record. *)
Lemma join_without_room_raises cid w rec u :
  db_fails E (clock w) = false →
  session (table w) cid = Ok rec → rec !! "username" = Some u → u ≠ "" →
  handle E cid "/join" w = (Raise IndexError, after_query cid w).
Proof.
  intros Hdb Hs Hu Hne.
  rewrite (handle_logged_in E cid _ w rec u) by done.
  by rewrite dispatch_join_bare.
Qed.

End Crashes.

(** C2, on the code: [alice] sends [/foo]; nothing is pushed, the table is
    not written, and the exception [TypeError] leaves [handle]. *)
Theorem unknown_command_is_not_answered :
  handle reliable "c1" "/foo" w_alice =
    (Raise TypeError, after_query "c1" w_alice) ∧
  pushes (trace (after_query "c1" w_alice)) = pushes (trace w_alice).
Proof. by vm_compute. Qed.

(** C3, on the code: [alice] sends [/join]; nothing is pushed and the
    exception [IndexError] leaves [handle]. *)
Theorem join_without_room_crashes :
  handle reliable "c1" "/join" w_alice =
    (Raise IndexError, after_query "c1" w_alice) ∧
  pushes (trace (after_query "c1" w_alice)) = pushes (trace w_alice).
Proof. by vm_compute. Qed.

(** ** [/nick] without arguments (C8) *)

(** C8. A logged-in connection sends [/nick]: the record is loaded, then
    the current name is pushed to the caller, and the handler makes no
    other call; what may follow in the trace is the sender's cleanup of a
    caller found gone, which pushes nothing.  Unless the caller is found
    gone, the table is the one before. *)
Theorem nick_without_arguments E cid w rec u :
  db_fails E (clock w) = false →
  session (table w) cid = Ok rec → rec !! "username" = Some u → u ≠ "" →
  ∃ evs,
    trace (handle E cid "/nick" w).2 =
      trace w ++ Db (QueryPK cid) true
              :: Push cid ("Current nickname: " +:+ u)
                      (ws_push E (S (clock w)) cid)
              :: evs ∧
    pushes evs = [] ∧
    (ws_push E (S (clock w)) cid ≠ PeerGone →
       evs = [] ∧ table (handle E cid "/nick" w).2 = table w).
Proof.
  intros Hdb Hs Hu Hne.
  rewrite (handle_logged_in E cid _ w rec u), dispatch_nick by done.
  unfold _nick, dict_getitem. rewrite Hu.
  change (bind (ret u) ?k (after_query cid w)) with (k u (after_query cid w)).
  destruct (send_trace E cid ("Current nickname: " +:+ u) (after_query cid w))
    as (evs & Htr & Hq & Hlive).
  exists evs. rewrite Htr. simpl. rewrite <- app_assoc. done.
Qed.

(** ** [/quit] (C7) *)

(** C7. A logged-in connection whose pushes are delivered sends [/quit]
    while the table answers.  Without a room in the record nothing happens
    after the record is loaded.  With a room, the membership row is
    deleted, the caller is told, and the members of the room are queried
    in the table without that row: they are the other connections that
    were in the room, the caller is not among them.  The departure is
    broadcast to them: unless a push is refused for another reason than a
    peer gone, [handle] returns and, after the query, every one of them
    was pushed [u left room.] once, in the order of the query, and nobody
    else was pushed anything. *)
Theorem quit_leaves_room E cid w rec u :
  (∀ n, db_fails E n = false) →
  (∀ n, ws_push E n cid = Delivered) →
  session (table w) cid = Ok rec → rec !! "username" = Some u → u ≠ "" →
  (rec !! "room" = None →
     handle E cid "/quit" w = (Ok tt, after_query cid w)) ∧
  (∀ room, rec !! "room" = Some room →
     let t' := table_delete (Item cid ("room_" +:+ room)) (table w) in
     let ids := members t' room in
     let w' :=
       World t' (4 + clock w)
         (trace w ++
            [Db (QueryPK cid) true;
             Db (DeleteItem cid ("room_" +:+ room)) true;
             Push cid ("Left chat room " +:+ Py.dquote +:+ room
                       +:+ Py.dquote) Delivered;
             Db (QueryIndex ("room_" +:+ room)) true]) in
     (cid ∉ ids) ∧
     (∀ c, c ∈ ids ↔ c ≠ cid ∧ in_room (table w) c room) ∧
     handle E cid "/quit" w = broadcast E ids (u +:+ " left room.") w' ∧
     ((∀ n c, c ∈ ids → ws_push E n c ≠ PushFailed) →
        (handle E cid "/quit" w).1 = Ok tt ∧
        ∃ evs,
          trace (handle E cid "/quit" w).2 = trace w' ++ evs ∧
          pushed evs = (fun c => (c, u +:+ " left room.")) <$> ids)).
Proof.
  intros Hdb Hws Hs Hu Hne.
  rewrite (handle_logged_in E cid _ w rec u), dispatch_quit by done.
  unfold _quit. split.
  - by intros ->.
  - intros room ->. cbv zeta.
    set (t' := table_delete (Item cid ("room_" +:+ room)) (table w)).
    set (ids := members t' room).
    set (w' := World t' (4 + clock w) _).
    assert (∀ c, c ∈ ids ↔ c ≠ cid ∧ in_room (table w) c room) as Hids.
    { intros c. unfold ids. rewrite elem_of_members. unfold in_room, t'.
      rewrite elem_of_table_delete. split.
      - intros [Hc Hin]. split; [|done]. by intros ->.
      - intros [Hc Hin]. split; [|done]. by intros [= ->]. }
    assert ((remove_room E cid room >>>
             send E cid ("Left chat room " +:+ Py.dquote +:+ room
                         +:+ Py.dquote) >>>
             let! connection_ids := get_connection_ids_by_room E room in
             let! username := dict_getitem rec "username" in
             broadcast E connection_ids (username +:+ " left room."))
              (after_query cid w)
            = broadcast E ids (u +:+ " left room.") w') as Heq.
    { unfold remove_room, get_connection_ids_by_room, bind, delete_item,
        query_index.
      rewrite db_call_ok by done. simpl.
      rewrite send_delivered by done.
      rewrite db_call_ok by done. simpl.
      unfold dict_getitem. rewrite Hu. unfold ret.
      by rewrite <- !app_assoc. }
    rewrite Heq.
    split; [by intros [? _]%Hids|]. split; [exact Hids|].
    split; [done|]. apply broadcast_pushes.
Qed.

(** ** At most one room per connection (C4) *)

Lemma no_new_rooms_refl w : no_new_rooms w w.
Proof. by intros cid r. Qed.

Lemma no_new_rooms_trans w1 w2 w3 :
  no_new_rooms w1 w2 → no_new_rooms w2 w3 → no_new_rooms w1 w3.
Proof. intros H1 H2 cid r H. auto. Qed.

Lemma shrinks_no_new_rooms w w' : shrinks w w' → no_new_rooms w w'.
Proof. intros H cid r. apply H. Qed.

Lemma steps_weaken {A} (R R' : world → world → Prop) (c : M A) :
  (∀ w w', R w w' → R' w w') → steps R c → steps R' c.
Proof. intros HR Hc w. apply HR, Hc. Qed.

Lemma one_room_no_new_rooms w w' cid :
  no_new_rooms w w' → one_room (table w) cid → one_room (table w') cid.
Proof. intros Hn H1 r1 r2 Hr1 Hr2. apply H1; by apply Hn. Qed.

Lemma at_most_one_room_no_new_rooms w w' :
  no_new_rooms w w' →
  at_most_one_room (table w) → at_most_one_room (table w').
Proof. intros Hn H cid. by eapply one_room_no_new_rooms. Qed.

(** The steps of a computation built from the monad's combinators. *)
Ltac steps_with refl trans prim :=
  repeat (intros; first
    [ prim
    | apply steps_ret; exact refl
    | apply steps_raise; exact refl
    | apply steps_lift; exact refl
    | apply steps_getitem; exact refl
    | apply steps_dict_getitem; exact refl
    | apply steps_bind; [exact trans | | ]
    | apply steps_for_each; [exact refl | exact trans | ]
    | apply steps_map_each; [exact refl | exact trans | ]
    | apply steps_try_except; [exact trans | | ]
    | case_match ]).

Section NoNewRooms.

Variable E : env.

Lemma db_call_no_new_rooms {A} op (f : list item → A * list item) :
  (∀ t cid r, in_room (f t).2 cid r → in_room t cid r) →
  steps no_new_rooms (db_call E op f).
Proof.
  intros Hf w cid r. unfold db_call.
  destruct (db_fails E (clock w)); simpl; [done|].
  specialize (Hf (table w) cid r). by destruct (f (table w)).
Qed.

Lemma put_username_no_new_rooms cid name :
  steps no_new_rooms (put_item E (Item cid ("username_" +:+ name))).
Proof.
  apply db_call_no_new_rooms. simpl. intros t c r.
  unfold in_room. rewrite elem_of_table_put. by intros [?|?].
Qed.

Lemma delete_item_no_new_rooms pk sk :
  steps no_new_rooms (delete_item E pk sk).
Proof.
  eapply steps_weaken; [apply shrinks_no_new_rooms | apply delete_item_shrinks].
Qed.

Lemma query_index_no_new_rooms sk : steps no_new_rooms (query_index E sk).
Proof. by apply db_call_no_new_rooms. Qed.

Lemma query_pk_no_new_rooms pk : steps no_new_rooms (query_pk E pk).
Proof. by apply db_call_no_new_rooms. Qed.

Lemma scan_no_new_rooms : steps no_new_rooms (scan E).
Proof. by apply db_call_no_new_rooms. Qed.

Lemma send_no_new_rooms c m : steps no_new_rooms (send E c m).
Proof.
  eapply steps_weaken; [apply shrinks_no_new_rooms | apply send_shrinks].
Qed.

Lemma delete_connection_no_new_rooms c :
  steps no_new_rooms (delete_connection E c).
Proof.
  eapply steps_weaken;
    [apply shrinks_no_new_rooms | apply delete_connection_shrinks].
Qed.

Ltac nnr :=
  steps_with no_new_rooms_refl no_new_rooms_trans
    ltac:(first [ apply put_username_no_new_rooms
                | apply delete_item_no_new_rooms
                | apply query_index_no_new_rooms
                | apply query_pk_no_new_rooms
                | apply scan_no_new_rooms
                | apply send_no_new_rooms
                | apply delete_connection_no_new_rooms ]).

Lemma broadcast_no_new_rooms l m : steps no_new_rooms (broadcast E l m).
Proof. unfold broadcast. nnr. Qed.

Lemma set_username_no_new_rooms cid old_name username :
  steps no_new_rooms (set_username E cid old_name username).
Proof. unfold set_username. nnr. Qed.

Lemma get_connection_ids_no_new_rooms room :
  steps no_new_rooms (get_connection_ids_by_room E room).
Proof. unfold get_connection_ids_by_room. nnr. Qed.

Lemma get_record_no_new_rooms cid :
  steps no_new_rooms (get_record_by_connection E cid).
Proof. unfold get_record_by_connection. nnr. Qed.

Lemma list_rooms_no_new_rooms : steps no_new_rooms (list_rooms E).
Proof. unfold list_rooms. nnr. Qed.

Ltac nnr' :=
  steps_with no_new_rooms_refl no_new_rooms_trans
    ltac:(first [ apply broadcast_no_new_rooms
                | apply set_username_no_new_rooms
                | apply get_connection_ids_no_new_rooms
                | apply get_record_no_new_rooms
                | apply list_rooms_no_new_rooms
                | apply send_no_new_rooms
                | apply delete_item_no_new_rooms ]).

Lemma login_no_new_rooms cid msg :
  steps no_new_rooms (_handle_login_message E cid msg).
Proof. unfold _handle_login_message. nnr'. Qed.

Lemma text_no_new_rooms cid msg rec :
  steps no_new_rooms (_handle_text E cid msg rec).
Proof. unfold _handle_text. nnr'. Qed.

Lemma help_no_new_rooms cid args rec :
  steps no_new_rooms (_help E cid args rec).
Proof. unfold _help. nnr'. Qed.

Lemma nick_no_new_rooms cid args rec :
  steps no_new_rooms (_nick E cid args rec).
Proof. unfold _nick. nnr'. Qed.

Lemma quit_no_new_rooms cid args rec :
  steps no_new_rooms (_quit E cid args rec).
Proof. unfold _quit, remove_room. nnr'. Qed.

Lemma quit_rest_no_new_rooms cid room_name rec :
  steps no_new_rooms (quit_rest E cid room_name rec).
Proof. unfold quit_rest. nnr'. Qed.

Lemma room_no_new_rooms cid args rec :
  steps no_new_rooms (_room E cid args rec).
Proof. unfold _room. nnr'. Qed.

Lemma list_no_new_rooms cid args rec :
  steps no_new_rooms (_list E cid args rec).
Proof. unfold _list. nnr'. Qed.

End NoNewRooms.

Section OneRoom.

Variable E : env.

Lemma db_call_cases {A} op (f : list item → A * list item) w :
  (db_call E op f w).1 = Raise ClientError ∧
    table (db_call E op f w).2 = table w ∨
  (db_call E op f w).1 = Ok (f (table w)).1 ∧
    table (db_call E op f w).2 = (f (table w)).2.
Proof.
  unfold db_call. destruct (db_fails E (clock w)); simpl; [by left|].
  right. by destruct (f (table w)).
Qed.

Lemma get_connection_ids_table room w :
  table (get_connection_ids_by_room E room w).2 = table w.
Proof.
  unfold get_connection_ids_by_room, bind, query_index, db_call.
  by destruct (db_fails E (clock w)).
Qed.

Lemma get_record_table cid w :
  table (get_record_by_connection E cid w).2 = table w ∧
  ((get_record_by_connection E cid w).1 = Raise ClientError ∨
   (get_record_by_connection E cid w).1 = session (table w) cid).
Proof.
  unfold get_record_by_connection, bind, query_pk, db_call.
  destruct (db_fails E (clock w)); simpl; [by auto|].
  unfold lift, session, rows_of. simpl.
  destruct (record_of _ _); auto.
Qed.

Lemma command_table_inv name command :
  _command_table E !! name = Some command →
  command = _help E ∨ command = _nick E ∨ command = _join E ∨
  command = _room E ∨ command = _quit E ∨ command = _list E.
Proof.
  unfold _command_table. intros H%elem_of_list_to_map_2.
  repeat (apply elem_of_cons in H as [H|H]; [injection H as _ ->; tauto|]).
  inversion H.
Qed.

(** After the quit behaviour returned, the connection is in no room. *)
Lemma quit_clears_room cid rec w wq :
  session (table w) cid = Ok rec → one_room (table w) cid →
  _quit E cid [] rec w = (Ok tt, wq) →
  ∀ r, ¬ in_room (table wq) cid r.
Proof.
  intros Hs H1. unfold _quit.
  destruct (rec !! "room") as [room|] eqn:Hroom.
  - intros (a & w1 & Hrm & Hrest)%bind_ok_inv r Hin.
    unfold remove_room, delete_item in Hrm.
    destruct (db_call_cases (DeleteItem cid ("room_" +:+ room))
                (fun t => (tt, table_delete (Item cid ("room_" +:+ room)) t)) w)
      as [[Hr _]|[_ Ht]]; rewrite Hrm in *; simpl in *; [done|].
    pose proof (quit_rest_no_new_rooms E cid room rec w1) as Hnn.
    unfold quit_rest in Hnn. rewrite Hrest in Hnn. simpl in Hnn.
    apply Hnn in Hin. unfold in_room in Hin. rewrite Ht in Hin.
    apply elem_of_table_delete in Hin as [Hne Hin]. apply Hne.
    do 2 f_equal. apply H1; [done|]. by eapply session_room_in.
  - intros [= <-]. by apply (session_no_room _ _ _ Hs).
Qed.

Lemma join_rest_no_new_rooms cid room ids rec :
  steps no_new_rooms (join_rest E cid room ids rec).
Proof.
  unfold join_rest.
  steps_with no_new_rooms_refl no_new_rooms_trans
    ltac:(first [ apply broadcast_no_new_rooms | apply send_no_new_rooms ]).
Qed.

Lemma at_most_one_room_put cid room t :
  at_most_one_room t → (∀ r, ¬ in_room t cid r) →
  at_most_one_room (table_put (Item cid ("room_" +:+ room)) t).
Proof.
  intros Hinv Hclear c r1 r2. unfold in_room.
  rewrite !elem_of_table_put.
  intros [H1|H1] [H2|H2].
  - injection H1 as _ Hr1. injection H2 as _ Hr2.
    change (r1 = room) in Hr1. change (r2 = room) in Hr2. congruence.
  - injection H1 as -> _. by destruct (Hclear r2).
  - injection H2 as -> _. by destruct (Hclear r1).
  - by apply (Hinv c).
Qed.

Lemma join_keeps_one_room cid args rec w :
  at_most_one_room (table w) → session (table w) cid = Ok rec →
  at_most_one_room (table (_join E cid args rec w).2).
Proof.
  intros Hinv Hs. unfold _join.
  destruct args as [|room args]; [done|].
  change (getitem (room :: args) 0) with (ret (A := string) room).
  change (bind (ret room) ?k w) with (k room w). cbv beta.
  unfold bind at 1.
  pose proof (quit_no_new_rooms E cid [] rec w) as Hq.
  destruct (_quit E cid [] rec w) as [[[]|e] wq] eqn:Hquit; simpl in Hq;
    [|by eapply at_most_one_room_no_new_rooms].
  pose proof (quit_clears_room cid rec w wq Hs (Hinv cid) Hquit) as Hclear.
  assert (at_most_one_room (table wq)) as Hinvq
    by (by eapply at_most_one_room_no_new_rooms).
  unfold bind at 1.
  pose proof (get_connection_ids_table room wq) as Hg.
  destruct (get_connection_ids_by_room E room wq) as [[ids|e] w2];
    simpl in Hg; [|simpl; by rewrite Hg].
  unfold bind at 1. unfold set_room, put_item.
  destruct (db_call_cases (PutItem cid ("room_" +:+ room))
              (fun t => (tt, table_put (Item cid ("room_" +:+ room)) t)) w2)
    as [[Hr Ht]|[Hr Ht]];
    destruct (db_call E _ _ w2) as [r w3]; simpl in Hr, Ht; subst r;
    [simpl; by rewrite Ht, Hg|].
  apply (at_most_one_room_no_new_rooms w3);
    [apply (join_rest_no_new_rooms cid room ids rec)|].
  rewrite Ht, Hg. by apply at_most_one_room_put.
Qed.

(** Every message keeps the invariant, whatever the environment. *)
Lemma handle_keeps_one_room cid msg w :
  at_most_one_room (table w) →
  at_most_one_room (table (handle E cid msg w).2).
Proof.
  intros Hinv. unfold handle. unfold bind at 1.
  destruct (get_record_table cid w) as [Ht Hr].
  destruct (get_record_by_connection E cid w) as [[rec|e] w1];
    simpl in Ht, Hr; [|simpl; by rewrite Ht].
  destruct Hr as [Hr|Hr]; [done|]. symmetry in Hr.
  rewrite <- Ht in Hinv, Hr. clear Ht.
  unfold dict_getitem. destruct (rec !! "username") as [u|]; [|done].
  change (bind (ret u) ?k w1) with (k u w1). cbv beta.
  destruct (decide (u = "")).
  { eapply at_most_one_room_no_new_rooms; [apply login_no_new_rooms|done]. }
  unfold _handle_message. destruct (Py.startswith "/" msg);
    [|eapply at_most_one_room_no_new_rooms; [apply text_no_new_rooms|done]].
  unfold _handle_command, getitem.
  destruct (Py.split " " (Py.tail msg) !! 0) as [name|]; [|done].
  change (bind (ret name) ?k w1) with (k name w1). cbv beta zeta.
  destruct (_command_table E !! Py.lower name) as [command|] eqn:Hc; [|done].
  apply command_table_inv in Hc
    as [-> | [-> | [-> | [-> | [-> | ->]]]]];
    try (by apply join_keeps_one_room);
    (eapply at_most_one_room_no_new_rooms; [|exact Hinv]).
  - apply help_no_new_rooms.
  - apply nick_no_new_rooms.
  - apply room_no_new_rooms.
  - apply quit_no_new_rooms.
  - apply list_no_new_rooms.
Qed.

End OneRoom.

Lemma run_keeps_one_room E evs w :
  at_most_one_room (table w) → at_most_one_room (table (run E evs w)).
Proof.
  revert w. induction evs as [|ev evs IH]; intros w Hinv; [done|].
  simpl. apply IH. destruct ev as [c|c|c body]; simpl.
  - eapply at_most_one_room_no_new_rooms; [|exact Hinv].
    apply (put_username_no_new_rooms E c "").
  - eapply at_most_one_room_no_new_rooms; [|exact Hinv].
    apply delete_connection_no_new_rooms.
  - by apply handle_keeps_one_room.
Qed.

(** ** [/join] (C6) *)

(** C6. A logged-in connection, in at most one room, whose pushes are
    delivered sends [/join room] while the table answers, and the quit
    behaviour returns.  The quit behaviour runs first, on the record that
    was loaded, and does nothing when the record has no room; then the
    members of [room] are queried, the membership row is written and the
    caller is told.  The members that the query returned are the
    connections that were in the room before the row was written, and the
    caller is not one of them.  The arrival is broadcast to them: unless a
    push is refused for another reason than a peer gone, [handle] returns
    and, after the reply to the caller, every one of them was pushed
    [u joined room.] once, in the order of the query, and nobody else was
    pushed anything. *)
Theorem join_enters_room E cid room w rec u wq :
  (∀ n, db_fails E n = false) →
  (∀ n, ws_push E n cid = Delivered) →
  session (table w) cid = Ok rec → rec !! "username" = Some u → u ≠ "" →
  one_room (table w) cid →
  Py.contains " " room = false →
  _quit E cid [] rec (after_query cid w) = (Ok tt, wq) →
  let ids := members (table wq) room in
  let w' :=
    World (table_put (Item cid ("room_" +:+ room)) (table wq))
      (3 + clock wq)
      (trace wq ++
         [Db (QueryIndex ("room_" +:+ room)) true;
          Db (PutItem cid ("room_" +:+ room)) true;
          Push cid ("Joined chat room " +:+ Py.dquote +:+ room
                    +:+ Py.dquote) Delivered]) in
  (cid ∉ ids) ∧
  (∀ c, c ∈ ids ↔ in_room (table wq) c room) ∧
  (rec !! "room" = None → wq = after_query cid w) ∧
  handle E cid ("/join " +:+ room) w =
    broadcast E ids (u +:+ " joined room.") w' ∧
  ((∀ n c, c ∈ ids → ws_push E n c ≠ PushFailed) →
     (handle E cid ("/join " +:+ room) w).1 = Ok tt ∧
     ∃ evs,
       trace (handle E cid ("/join " +:+ room) w).2 = trace w' ++ evs ∧
       pushed evs = (fun c => (c, u +:+ " joined room.")) <$> ids).
Proof.
  intros Hdb Hws Hs Hu Hne H1 Htok Hq ids w'.
  assert (handle E cid ("/join " +:+ room) w =
          broadcast E ids (u +:+ " joined room.") w') as Heq.
  { rewrite (handle_logged_in E cid _ w rec u), dispatch_join by done.
    unfold _join.
    change (getitem [room] 0) with (ret (A := string) room).
    change (bind (ret room) ?k (after_query cid w))
      with (k room (after_query cid w)). cbv beta.
    unfold bind at 1. rewrite Hq.
    unfold get_connection_ids_by_room, set_room, bind, query_index, put_item.
    rewrite db_call_ok by done. simpl.
    rewrite db_call_ok by done. simpl.
    rewrite send_delivered by done.
    unfold dict_getitem. rewrite Hu. unfold ret. simpl.
    by rewrite <- !app_assoc. }
  split; [|split; [|split; [|split]]].
  - intros Hin%elem_of_members.
    by apply (quit_clears_room E cid rec (after_query cid w) wq Hs H1 Hq room).
  - intros c. apply elem_of_members.
  - intros Hnone. unfold _quit in Hq. rewrite Hnone in Hq.
    by injection Hq.
  - exact Heq.
  - rewrite Heq. apply broadcast_pushes.
Qed.

(** ** [/nick name] in a room (C10) *)





(** A record whose room has the empty name counts as no room in [_nick]:
    nothing is queried or broadcast. *)
Lemma nick_in_unnamed_room E cid nick w rec u :
  (∀ n, db_fails E n = false) →
  (∀ n, ws_push E n cid = Delivered) →
  session (table w) cid = Ok rec → rec !! "username" = Some u → u ≠ "" →
  rec !! "room" = Some "" →
  Py.contains " " nick = false →
  handle E cid ("/nick " +:+ nick) w =
    (Ok tt,
     World (table_put (Item cid ("username_" +:+ nick))
              (table_delete (Item cid ("username_" +:+ u)) (table w)))
           (4 + clock w)
           (trace w ++
              [Db (QueryPK cid) true;
               Db (DeleteItem cid ("username_" +:+ u)) true;
               Db (PutItem cid ("username_" +:+ nick)) true;
               Push cid ("Nickname is: " +:+ nick) Delivered])).
Proof.
  intros Hdb Hws Hs Hu Hne Hroom Htok.
  rewrite (handle_logged_in E cid _ w rec u), dispatch_nick_to by done.
  unfold _nick, dict_getitem. rewrite Hu, Hroom.
  change (bind (ret u) ?k (after_query cid w))
    with (k u (after_query cid w)). cbv beta.
  unfold bind at 1. unfold set_username, bind at 1, delete_item, put_item.
  rewrite db_call_ok by done. simpl. rewrite db_call_ok by done. simpl.
  unfold bind. rewrite send_delivered by done. simpl.
  by rewrite <- !app_assoc.
Qed.

(** ** Joining one room after another (C4) *)

Lemma safe_ret cid {A} (a : A) : safe cid (ret a).
Proof. intros w. split; [by exists a | done]. Qed.

Lemma safe_bind cid {A B} (c : M A) (k : A → M B) :
  safe cid c → (∀ a, safe cid (k a)) → safe cid (bind c k).
Proof.
  intros Hc Hk w. unfold bind. destruct (Hc w) as [[a Ha] Hr].
  destruct (c w) as [r w1]. simpl in *. subst r.
  destruct (Hk a w1) as [Hb Hr']. split; [done|].
  by eapply keeps_rows_trans.
Qed.

Lemma safe_for_each cid {A} (l : list A) (f : A → M unit) :
  (∀ x, safe cid (f x)) → safe cid (for_each l f).
Proof.
  intros Hf. induction l as [|x l IH]; simpl.
  - apply safe_ret.
  - apply safe_bind; [apply Hf | by intros _].
Qed.

Section Live.

Variable E : env.
Variable cid : string.

(** The table answers, a push fails only because the peer is gone, and
    the pushes to [cid] are delivered. *)
Hypothesis db_ok : ∀ n, db_fails E n = false.
Hypothesis ws_ok : ∀ n c, ws_push E n c ≠ PushFailed.
Hypothesis live : ∀ n, ws_push E n cid = Delivered.

Lemma safe_send c m : safe cid (send E c m).
Proof.
  intros w. split.
  - exists tt. destruct (send_result E c m w) as [H|H]; [done|].
    unfold send, websocket_api_send in H.
    pose proof (ws_ok (clock w) c) as Hc.
    destruct (ws_push E (clock w) c); simpl in H; try done.
    by rewrite delete_connection_returns in H.
  - apply send_keeps_rows. intros n. by rewrite live.
Qed.

Lemma safe_broadcast l m : safe cid (broadcast E l m).
Proof. apply safe_for_each. intros c. apply safe_send. Qed.

Lemma safe_get_connection_ids room :
  safe cid (get_connection_ids_by_room E room).
Proof.
  intros w. unfold get_connection_ids_by_room, bind, query_index.
  rewrite db_call_ok by done. simpl. split; [by eexists | done].
Qed.

Lemma safe_quit_rest room rec u :
  rec !! "username" = Some u → safe cid (quit_rest E cid room rec).
Proof.
  intros Hu. unfold quit_rest, dict_getitem. rewrite Hu.
  apply safe_bind; [apply safe_send|]. intros _.
  apply safe_bind; [apply safe_get_connection_ids|]. intros ids.
  apply safe_bind; [apply safe_ret|]. intros u'. apply safe_broadcast.
Qed.

Lemma safe_join_rest room ids rec u :
  rec !! "username" = Some u → safe cid (join_rest E cid room ids rec).
Proof.
  intros Hu. unfold join_rest, dict_getitem. rewrite Hu.
  apply safe_bind; [apply safe_send|]. intros _.
  apply safe_bind; [apply safe_ret|]. intros u'. apply safe_broadcast.
Qed.

Lemma get_connection_ids_ok room w :
  get_connection_ids_by_room E room w =
    (Ok (members (table w) room),
     World (table w) (S (clock w))
           (trace w ++ [Db (QueryIndex ("room_" +:+ room)) true])).
Proof.
  unfold get_connection_ids_by_room, bind, query_index.
  by rewrite db_call_ok.
Qed.

Lemma set_room_ok room w :
  set_room E cid room w =
    (Ok tt,
     World (table_put (Item cid ("room_" +:+ room)) (table w)) (S (clock w))
           (trace w ++ [Db (PutItem cid ("room_" +:+ room)) true])).
Proof. unfold set_room, put_item. by rewrite db_call_ok. Qed.

Lemma remove_room_ok room w :
  remove_room E cid room w =
    (Ok tt,
     World (table_delete (Item cid ("room_" +:+ room)) (table w)) (S (clock w))
           (trace w ++ [Db (DeleteItem cid ("room_" +:+ room)) true])).
Proof. unfold remove_room, delete_item. by rewrite db_call_ok. Qed.

Lemma quit_exec rec u w :
  rec !! "username" = Some u →
  (_quit E cid [] rec w).1 = Ok tt ∧
  rows_of cid (table (_quit E cid [] rec w).2) =
    rows_after_quit cid rec (rows_of cid (table w)).
Proof.
  intros Hu. unfold _quit, rows_after_quit.
  destruct (rec !! "room") as [room|]; [|done].
  rewrite (bind_ok _ _ _ _ _ (remove_room_ok room w)).
  match goal with
  | |- context [bind (send E cid ?m) ?k ?w1] =>
      change (bind (send E cid m) k w1) with (quit_rest E cid room rec w1);
      destruct (safe_quit_rest room rec u Hu w1) as [[[] Hr] Hk]
  end.
  split; [done|]. rewrite Hk. simpl. apply rows_of_table_delete.
Qed.

Lemma join_exec room rec u w :
  session (table w) cid = Ok rec → rec !! "username" = Some u → u ≠ "" →
  Py.contains " " room = false →
  (handle E cid ("/join " +:+ room) w).1 = Ok tt ∧
  rows_of cid (table (handle E cid ("/join " +:+ room) w).2) =
    table_put (Item cid ("room_" +:+ room))
      (rows_after_quit cid rec (rows_of cid (table w))).
Proof.
  intros Hs Hu Hne Htok.
  rewrite (handle_logged_in E cid _ w rec u), dispatch_join by done.
  unfold _join.
  change (getitem [room] 0) with (ret (A := string) room).
  change (bind (ret room) ?k (after_query cid w))
    with (k room (after_query cid w)). cbv beta.
  destruct (quit_exec rec u (after_query cid w) Hu) as [Hr Hrows].
  destruct (_quit E cid [] rec (after_query cid w)) as [r wq] eqn:Hq.
  simpl in Hr, Hrows. subst r.
  rewrite (bind_ok _ _ _ _ _ Hq).
  rewrite (bind_ok _ _ _ _ _ (get_connection_ids_ok room wq)).
  rewrite (bind_ok _ _ _ _ _ (set_room_ok room _)).
  match goal with
  | |- context [bind (send E cid ?m) ?k ?w1] =>
      change (bind (send E cid m) k w1)
        with (join_rest E cid room (members (table wq) room) rec w1);
      destruct (safe_join_rest room (members (table wq) room) rec u Hu w1)
        as [[[] Hr] Hk]
  end.
  split; [done|]. rewrite Hk. simpl.
  by rewrite rows_of_table_put, Hrows.
Qed.

End Live.

(** The last entry for a key decides its value. *)
Lemma record_of_last rows d rec key :
  record_of rows d = Ok rec →
  rec !! key = match last (omap (entry key) rows) with
               | Some v => Some v
               | None => d !! key
               end.
Proof.
  revert d. induction rows as [|it rows IH]; intros d; simpl.
  - by intros [= ->].
  - unfold entry at 1.
    destruct (Py.split1 "_" (SK it)) as [|k [|v rest]]; try done.
    intros Hrec. rewrite (IH _ Hrec).
    destruct (decide (k = key)) as [->|Hne].
    + rewrite last_cons. destruct (last _); [done|].
      by rewrite lookup_insert_eq.
    + destruct (last _); [done|]. by rewrite lookup_insert_ne.
Qed.

Lemma record_of_ok rows d :
  (∀ it, it ∈ rows → well_formed it) → ∃ rec, record_of rows d = Ok rec.
Proof.
  revert d. induction rows as [|it rows IH]; intros d Hwf; simpl.
  - by exists d.
  - destruct (Hwf it) as (k & v & ->); [left|].
    apply IH. intros y Hy. apply Hwf. by right.
Qed.

Lemma record_of_well_formed rows d rec :
  record_of rows d = Ok rec → ∀ it, it ∈ rows → well_formed it.
Proof.
  revert d. induction rows as [|it rows IH]; intros d; simpl.
  - intros _ it Hin. inversion Hin.
  - destruct (Py.split1 "_" (SK it)) as [|k [|v rest]] eqn:Hs; try done.
    intros Hrec y [->|Hy]%elem_of_cons; [|by eapply IH].
    destruct (split1_two _ _ _ _ _ Hs) as [-> _]. by exists k, v.
Qed.

Lemma startswith_room s :
  Py.startswith "room_" s = true → ∃ r, s = "room_" +:+ r.
Proof.
  unfold Py.startswith. intros H.
  do 5 (destruct s as [|? s]; [done|];
        cbn [String.prefix] in H;
        destruct (ascii_dec _ _) as [<-|]; [|done]).
  by exists s.
Qed.

Lemma startswith_room_app r : Py.startswith "room_" ("room_" +:+ r) = true.
Proof. by destruct r. Qed.

Section AfterJoin.

Variables (t t' : list item) (cid room : string) (rec : gmap string string).
Hypothesis Hs : session t cid = Ok rec.
Hypothesis Hrows :
  rows_of cid t' =
    table_put (Item cid ("room_" +:+ room))
      (rows_after_quit cid rec (rows_of cid t)).

Lemma rows_after_quit_elem x :
  x ∈ rows_after_quit cid rec (rows_of cid t) → x ∈ rows_of cid t.
Proof.
  unfold rows_after_quit. destruct (rec !! "room"); [|done].
  by intros [_ ?]%elem_of_table_delete.
Qed.

(** The record after the join has the username of the record before. *)
Lemma session_after_join u :
  rec !! "username" = Some u →
  ∃ rec', session t' cid = Ok rec' ∧ rec' !! "username" = Some u.
Proof.
  intros Hu. unfold session in *.
  destruct (record_of_ok (sorted_by SK (rows_of cid t')) ∅) as [rec' Hrec'].
  { intros it Hit%elem_of_sorted_by. rewrite Hrows in Hit.
    apply elem_of_table_put in Hit as [->|Hin].
    - by exists "room", room.
    - eapply record_of_well_formed; [exact Hs|].
      by apply elem_of_sorted_by, rows_after_quit_elem. }
  exists rec'. split; [done|].
  rewrite (record_of_last _ _ _ "username" Hrec').
  rewrite (omap_sorted_by SK (entry "username") _ (rows_of cid t)).
  { by rewrite <- (record_of_last _ _ _ "username" Hs). }
  rewrite Hrows, filter_table_put by (by intros [? ?]).
  unfold rows_after_quit. destruct (rec !! "room"); [|done].
  by rewrite filter_table_delete by (by intros [? ?]).
Qed.

Hypothesis H1 : one_room t cid.

Lemma rows_after_quit_no_room x :
  x ∈ rows_after_quit cid rec (rows_of cid t) →
  ¬ (Py.startswith "room_" (SK x) = true).
Proof.
  intros Hx [r Hr]%startswith_room.
  pose proof (rows_after_quit_elem x Hx) as [Hpk Hin]%list_elem_of_filter.
  assert (x = Item cid ("room_" +:+ r)) as ->
    by (destruct x; simpl in *; by subst).
  unfold rows_after_quit in Hx.
  destruct (rec !! "room") as [r0|] eqn:Hroom.
  - apply elem_of_table_delete in Hx as [Hne _]. apply Hne.
    do 2 f_equal. apply H1; [done|]. by eapply session_room_in.
  - by apply (session_no_room _ _ _ Hs) in Hin.
Qed.

(** After the join the connection has exactly one membership row. *)
Lemma rooms_after_join :
  filter (fun x => Py.startswith "room_" (SK x) = true) (rows_of cid t') =
    [Item cid ("room_" +:+ room)] ∧
  ∀ r, in_room t' cid r ↔ r = room.
Proof.
  assert (Item cid ("room_" +:+ room)
            ∉ rows_after_quit cid rec (rows_of cid t)) as Hfresh.
  { intros Hin. apply rows_after_quit_no_room in Hin.
    apply Hin, startswith_room_app. }
  rewrite Hrows. unfold table_put at 1. rewrite decide_False by done.
  split.
  - rewrite filter_app, filter_none by apply rows_after_quit_no_room.
    by rewrite filter_cons_True by apply startswith_room_app.
  - intros r. unfold in_room.
    assert (Item cid ("room_" +:+ r) ∈ t' ↔
            Item cid ("room_" +:+ r) ∈ rows_of cid t') as ->.
    { unfold rows_of. rewrite list_elem_of_filter. simpl. tauto. }
    rewrite Hrows, elem_of_table_put. split.
    + intros [[= H%app_inj_l]|Hin]; [done|].
      apply rows_after_quit_no_room in Hin.
      destruct Hin. apply startswith_room_app.
    + intros ->. by left.
Qed.

End AfterJoin.

(** C4. A logged-in connection in at most one room sends [/join a] and
    then [/join b], while the table answers, no push fails for another
    reason than a peer gone, and the pushes to the connection are
    delivered: both messages are handled without an exception, and then
    the connection has exactly one membership row, the one for [b].
    Moreover, whatever the environment and the events (connections,
    disconnections, messages of any connection, so every sequence of joins
    and quits), a table with at most one room per connection stays so. *)
Theorem one_room_per_connection E cid a b w rec u :
  (∀ n, db_fails E n = false) →
  (∀ n c, ws_push E n c ≠ PushFailed) →
  (∀ n, ws_push E n cid = Delivered) →
  session (table w) cid = Ok rec → rec !! "username" = Some u → u ≠ "" →
  one_room (table w) cid →
  Py.contains " " a = false → Py.contains " " b = false →
  let w1 := (handle E cid ("/join " +:+ a) w).2 in
  let w2 := (handle E cid ("/join " +:+ b) w1).2 in
  ((handle E cid ("/join " +:+ a) w).1 = Ok tt ∧
   (handle E cid ("/join " +:+ b) w1).1 = Ok tt ∧
   filter (fun x => Py.startswith "room_" (SK x) = true)
          (rows_of cid (table w2)) = [Item cid ("room_" +:+ b)] ∧
   ∀ r, in_room (table w2) cid r ↔ r = b) ∧
  (∀ E' evs w',
     at_most_one_room (table w') → at_most_one_room (table (run E' evs w'))).
Proof.
  intros Hdb Hws Hlive Hs Hu Hne H1 Ha Hb w1 w2.
  split; [|intros E' evs w'; apply run_keeps_one_room].
  destruct (join_exec E cid Hdb Hws Hlive a rec u w Hs Hu Hne Ha)
    as [Hr1 Hrows1].
  fold w1 in Hrows1.
  destruct (session_after_join _ _ _ _ _ Hs Hrows1 u Hu)
    as (rec1 & Hs1 & Hu1).
  destruct (rooms_after_join _ _ _ _ _ Hs Hrows1 H1) as [_ Hin1].
  assert (one_room (table w1) cid) as H11.
  { intros r1 r2 Hr1'%Hin1 Hr2'%Hin1. congruence. }
  destruct (join_exec E cid Hdb Hws Hlive b rec1 u w1 Hs1 Hu1 Hne Hb)
    as [Hr2 Hrows2].
  fold w2 in Hrows2.
  destruct (rooms_after_join _ _ _ _ _ Hs1 Hrows2 H11) as [Hrow Hin2].
  done.
Qed.

(** ** The theorems at concrete worlds *)

(** Two connections go through the life of a session: names, a room for
    both, a text, a departure, a disconnection.  The pushes are those of
    the walk-through, and in the end the table holds the identity row of
    the second connection only, so that no room is listed. *)
Example two_connections :
  let w :=
    run reliable
      [Connect "C1"; Message "C1" "alice"; Message "C1" "/join lobby";
       Connect "C2"; Message "C2" "bob"; Message "C2" "/join lobby";
       Message "C1" "hi"; Message "C2" "/quit"; Disconnect "C1"]
      empty_world in
  deliveries (trace w) =
    [("C1", "Using nickname: alice" +:+ Py.newline +:+
            "Type /help for list of commands.");
     ("C1", "Joined chat room " +:+ Py.dquote +:+ "lobby" +:+ Py.dquote);
     ("C2", "Using nickname: bob" +:+ Py.newline +:+
            "Type /help for list of commands.");
     ("C2", "Joined chat room " +:+ Py.dquote +:+ "lobby" +:+ Py.dquote);
     ("C1", "bob joined room.");
     ("C1", "alice: hi");
     ("C2", "alice: hi");
     ("C2", "Left chat room " +:+ Py.dquote +:+ "lobby" +:+ Py.dquote);
     ("C1", "bob left room.")] ∧
  table w = [Item "C2" "username_bob"] ∧
  (list_rooms reliable w).1 = Ok ∅.
Proof. by vm_compute. Qed.

(** The rows of a query come in the order of the key, not in the order in
    which they were written.  A connection that has the stub row and the
    row of a name is read with that name, since [username_] comes first:
    after a second connection notice, [alice] is still logged in.  The
    members of a room come in the order of their connection ids: [c2]
    entered [lobby] first, and [/ls] gives [alice] before [bob]. *)
Example queries_in_key_order :
  table w_reconnected = [Item "c1" "username_alice"; Item "c1" "username_"] ∧
  (query_pk reliable "c1" w_reconnected).1
    = Ok [Item "c1" "username_"; Item "c1" "username_alice"] ∧
  session (table w_reconnected) "c1" = Ok alice ∧
  pushes (trace (handle reliable "c1" "hi" w_reconnected).2)
    = pushes (trace w_reconnected)
        ++ [("c1", "Cannot send message if not in chatroom.", Delivered)] ∧
  table w_late = [Item "c2" "username_bob"; Item "c2" "room_lobby";
                  Item "c1" "username_alice"; Item "c1" "room_lobby"] ∧
  (get_connection_ids_by_room reliable "lobby" w_late).1 = Ok ["c1"; "c2"] ∧
  (query_pk reliable "c1" w_late).1
    = Ok [Item "c1" "room_lobby"; Item "c1" "username_alice"] ∧
  pushes (trace (handle reliable "c2" "/ls" w_late).2)
    = pushes (trace w_late)
        ++ [("c2", "alice" +:+ Py.newline +:+ "bob", Delivered)].
Proof. by vm_compute. Qed.


(** A connection with at most one membership row in the list of its rows
    is in at most one room. *)
Lemma one_room_of_length t cid :
  (List.length (filter (fun x => Py.startswith "room_" (SK x) = true)
                       (rows_of cid t)) ≤ 1)%nat →
  one_room t cid.
Proof.
  intros Hlen r1 r2 Hr1 Hr2.
  assert (∀ r, in_room t cid r →
               Item cid ("room_" +:+ r)
                 ∈ filter (fun x => Py.startswith "room_" (SK x) = true)
                          (rows_of cid t)) as Hin.
  { intros r Hr. apply list_elem_of_filter. split.
    - apply startswith_room_app.
    - by apply list_elem_of_filter. }
  apply Hin in Hr1, Hr2.
  destruct (filter _ _) as [|x [|y l]]; simpl in Hlen; [inversion Hr1| |lia].
  apply list_elem_of_singleton in Hr1, Hr2.
  assert (Item cid ("room_" +:+ r1) = Item cid ("room_" +:+ r2)) as Heq
    by congruence.
  injection Heq. apply app_inj_l.
Qed.

Lemma username_of_record_witness :
  handle reliable "c1" "alice" w_fresh =
    _handle_login_message reliable "c1" "alice" (after_query "c1" w_fresh) ∧
  handle reliable "c1" "hello" w_gone =
    (Raise (KeyError "username"), after_query "c1" w_gone).
Proof.
  split.
  - refine (proj1 (proj2 (proj2 (proj2
      (username_of_record reliable "c1" w_fresh anonymous _ _)))) _ "alice").
    + reflexivity.
    + vm_compute. reflexivity.
    + reflexivity.
  - refine (proj1 (proj2 (proj2 (proj2 (proj2
      (username_of_record reliable "c1" w_gone ∅ _ _))))) _ "hello").
    + reflexivity.
    + vm_compute. reflexivity.
    + reflexivity.
Defined.

Lemma one_room_per_connection_witness :
  filter (fun x => Py.startswith "room_" (SK x) = true)
    (rows_of "c1"
       (table (handle reliable "c1" "/join den"
                 (handle reliable "c1" "/join lobby" w_alice).2).2))
  = [Item "c1" "room_den"].
Proof.
  refine (proj1 (proj2 (proj2 (proj1
    (one_room_per_connection reliable "c1" "lobby" "den" w_alice alice "alice"
       _ _ _ _ _ _ _ _ _))))).
  - reflexivity.
  - discriminate.
  - reflexivity.
  - vm_compute. reflexivity.
  - reflexivity.
  - discriminate.
  - apply one_room_of_length. vm_compute. lia.
  - reflexivity.
  - reflexivity.
Defined.

Lemma broadcast_one_dead_witness :
  table (broadcast c1_gone ["c2"; "c1"] "hi" w_both).2
  = filter (fun x => PK x ≠ "c1") (table w_both).
Proof.
  refine (proj2 (proj2
    (broadcast_one_dead c1_gone "c1" ["c2"; "c1"] "hi" w_both _ _ _ _)) _).
  - compute_done.
  - compute_done.
  - reflexivity.
  - intros n c Hc Hne. simpl. by rewrite decide_False.
  - reflexivity.
Defined.

Lemma join_enters_room_witness :
  (handle reliable "c2" "/join lobby" w_bob).1 = Ok tt ∧
  ∃ evs,
    trace (handle reliable "c2" "/join lobby" w_bob).2 =
      (trace w_bob ++
         [Db (QueryPK "c2") true;
          Db (QueryIndex "room_lobby") true;
          Db (PutItem "c2" "room_lobby") true;
          Push "c2" ("Joined chat room " +:+ Py.dquote +:+ "lobby"
                     +:+ Py.dquote) Delivered]) ++ evs ∧
    pushed evs = [("c1", "bob joined room.")].
Proof.
  refine (proj2 (proj2 (proj2 (proj2
    (join_enters_room reliable "c2" "lobby" w_bob bob "bob"
       (after_query "c2" w_bob) _ _ _ _ _ _ _ _)))) _).
  - reflexivity.
  - reflexivity.
  - vm_compute. reflexivity.
  - reflexivity.
  - discriminate.
  - apply one_room_of_length. vm_compute. lia.
  - reflexivity.
  - reflexivity.
  - discriminate.
Defined.

Lemma quit_leaves_room_witness :
  (handle reliable "c1" "/quit" w_both).1 = Ok tt ∧
  ∃ evs,
    trace (handle reliable "c1" "/quit" w_both).2 =
      (trace w_both ++
         [Db (QueryPK "c1") true;
          Db (DeleteItem "c1" "room_lobby") true;
          Push "c1" ("Left chat room " +:+ Py.dquote +:+ "lobby"
                     +:+ Py.dquote) Delivered;
          Db (QueryIndex "room_lobby") true]) ++ evs ∧
    pushed evs = [("c2", "alice left room.")].
Proof.
  refine (proj2 (proj2 (proj2 (proj2
    (quit_leaves_room reliable "c1" w_both alice_in_lobby "alice" _ _ _ _ _)
    "lobby" _))) _).
  - reflexivity.
  - reflexivity.
  - vm_compute. reflexivity.
  - reflexivity.
  - discriminate.
  - reflexivity.
  - discriminate.
Defined.

Lemma nick_without_arguments_witness :
  ∃ evs,
    trace (handle reliable "c1" "/nick" w_alice).2 =
      trace w_alice ++ Db (QueryPK "c1") true
        :: Push "c1" "Current nickname: alice" Delivered :: evs ∧
    pushes evs = [] ∧
    (Delivered ≠ PeerGone →
       evs = [] ∧ table (handle reliable "c1" "/nick" w_alice).2
                  = table w_alice).
Proof.
  refine (nick_without_arguments reliable "c1" w_alice alice "alice" _ _ _ _).
  - reflexivity.
  - vm_compute. reflexivity.
  - reflexivity.
  - discriminate.
Defined.

Lemma delete_connection_swallows_store_errors_witness :
  delete_connection db_down "c1" w_lobby =
    (Ok tt,
     World (table w_lobby) (S (clock w_lobby))
           (trace w_lobby ++ [Db (QueryPK "c1") false; Printed ClientError])).
Proof.
  refine (proj1 (proj1 (proj2 (proj2
    (delete_connection_swallows_store_errors db_down "c1" w_lobby))) _)).
  reflexivity.
Defined.


(** * More properties of the code *)

(** ** storage.py: the room index *)

Lemma map_each_pure {A B} (l : list A) (f : A → M B) (g : A → B) w :
  (∀ x, x ∈ l → f x = ret (g x)) → map_each l f w = (Ok (g <$> l), w).
Proof.
  revert w. induction l as [|x l IH]; intros w Hf; [done|].
  simpl. rewrite (Hf x) by left. unfold bind at 1, ret at 1.
  unfold bind at 1. rewrite IH by (intros y Hy; apply Hf; by right). done.
Qed.

Lemma room_of_room cid r : room_of (Item cid ("room_" +:+ r)) = r.
Proof. reflexivity. Qed.

(** The rooms read off the membership rows of a table. *)
Lemma rooms_of_table (t : list item) r :
  r ∈ (list_to_set
         (room_of <$> filter (fun it => Py.startswith "room_" (SK it) = true) t)
       : gset string) ↔
  ∃ cid, in_room t cid r.
Proof.
  rewrite elem_of_list_to_set, list_elem_of_fmap. split.
  - intros (it & -> & [Hs Hin]%list_elem_of_filter).
    apply startswith_room in Hs as [r Hr].
    exists (PK it). unfold in_room.
    destruct it as [pk sk]. simpl in *. subst sk.
    by rewrite room_of_room.
  - intros [cid Hin]. exists (Item cid ("room_" +:+ r)). split; [done|].
    apply list_elem_of_filter. split; [apply startswith_room_app | done].
Qed.

(** [list_rooms] when the table answers: one scan, and no row among the
    membership rows on which the split of the sort key is too short. *)
Lemma list_rooms_scan E w :
  db_fails E (clock w) = false →
  list_rooms E w =
    (Ok (list_to_set
           (room_of <$>
              filter (fun it => Py.startswith "room_" (SK it) = true)
                     (table w))),
     World (table w) (S (clock w)) (trace w ++ [Db Scan true])).
Proof.
  intros Hdb. unfold list_rooms, scan. unfold bind at 1.
  rewrite db_call_ok by done. simpl. unfold bind at 1.
  rewrite (map_each_pure _ _ room_of); [done|].
  intros it [Hs _]%list_elem_of_filter.
  apply startswith_room in Hs as [r Hr]. unfold room_of, getitem.
  by rewrite Hr.
Qed.

Lemma list_rooms_ok E w :
  db_fails E (clock w) = false →
  ∃ rooms : gset string,
    list_rooms E w =
      (Ok rooms,
       World (table w) (S (clock w)) (trace w ++ [Db Scan true])) ∧
    ∀ r, r ∈ rooms ↔ ∃ cid, in_room (table w) cid r.
Proof.
  intros Hdb. eexists. split; [by apply list_rooms_scan|].
  apply rooms_of_table.
Qed.

(** [list_rooms] returns, when the table answers, exactly the rooms that
    have a member; it reads the table once and cannot raise [IndexError],
    whatever the other rows of the table are. *)
Theorem list_rooms_lists_rooms_with_members E w :
  db_fails E (clock w) = false →
  ∃ rooms : gset string,
    list_rooms E w =
      (Ok rooms,
       World (table w) (S (clock w)) (trace w ++ [Db Scan true])) ∧
    ∀ r, r ∈ rooms ↔ ∃ cid, in_room (table w) cid r.
Proof.
  intros Hdb.
  exists (list_to_set
            (room_of <$>
               filter (fun it => Py.startswith "room_" (SK it) = true)
                      (table w))).
  split.
  - by apply list_rooms_scan.
  - intros r. apply rooms_of_table.
Qed.

(** The index query lists exactly the members of the room and leaves the
    table as it is; [set_room] adds the membership of the connection and
    [remove_room] takes away that one membership, and neither touches
    another membership or an identity row. *)
Theorem room_index_round_trip E cid room w :
  (∀ n, db_fails E n = false) →
  (∃ ids w',
     get_connection_ids_by_room E room w = (Ok ids, w') ∧
     table w' = table w ∧
     ∀ c, c ∈ ids ↔ in_room (table w) c room) ∧
  (set_room E cid room w).1 = Ok tt ∧
  (∀ c r, in_room (table (set_room E cid room w).2) c r ↔
          (c = cid ∧ r = room) ∨ in_room (table w) c r) ∧
  (∀ c n, named (table (set_room E cid room w).2) c n ↔ named (table w) c n) ∧
  (remove_room E cid room w).1 = Ok tt ∧
  (∀ c r, in_room (table (remove_room E cid room w).2) c r ↔
          ¬ (c = cid ∧ r = room) ∧ in_room (table w) c r) ∧
  (∀ c n, named (table (remove_room E cid room w).2) c n ↔
          named (table w) c n).
Proof.
  intros Hdb. split; [|rewrite set_room_ok, remove_room_ok by done; simpl].
  - rewrite get_connection_ids_ok by done. do 2 eexists.
    split; [reflexivity|]. split; [done|]. intros c.
    apply elem_of_members.
  - unfold in_room, named.
    split; [done|]. split; [|split; [|split; [done|split]]].
    + intros c r. rewrite elem_of_table_put. split.
      * intros [H|?]; [|by right]. injection H as -> Hr%app_inj_l. by left.
      * intros [[-> ->]|?]; auto.
    + intros c n. rewrite elem_of_table_put. split; [|auto].
      by intros [?|?].
    + intros c r. rewrite elem_of_table_delete. split.
      * intros [Hne Hin]. split; [|done]. intros [-> ->]. by apply Hne.
      * intros [Hne Hin]. split; [|done].
        intros H. injection H as -> Hr%app_inj_l. by apply Hne.
    + intros c n. rewrite elem_of_table_delete. split; [tauto|].
      by intros ?.
Qed.

(** ** storage.py: [delete_connection] *)

(** When the table answers, [delete_connection] removes the rows of the
    connection and no other row: afterwards the connection has no
    identity row, is listed in no room, and its record is empty; doing it
    again changes nothing in the table. *)
Theorem delete_connection_removes_the_connection E cid w :
  (∀ n, db_fails E n = false) →
  let w' := (delete_connection E cid w).2 in
  table w' = filter (fun x => PK x ≠ cid) (table w) ∧
  (∀ room ids w'',
     get_connection_ids_by_room E room w' = (Ok ids, w'') → cid ∉ ids) ∧
  (∀ name, ¬ named (table w') cid name) ∧
  session (table w') cid = Ok ∅ ∧
  (∀ c, c ≠ cid → rows_of c (table w') = rows_of c (table w)) ∧
  table (delete_connection E cid w').2 = table w'.
Proof.
  intros Hdb w'.
  destruct (delete_connection_ok E Hdb cid w) as [_ Ht]. fold w' in Ht.
  assert (rows_of cid (table w') = []) as Hrows.
  { unfold rows_of. rewrite Ht, list_filter_filter.
    apply filter_none. tauto. }
  split; [exact Ht|]. split; [|split; [|split; [|split]]].
  - intros room ids w''. rewrite get_connection_ids_ok by done.
    intros [= <- _] Hin%elem_of_members. unfold in_room in Hin.
    rewrite Ht in Hin. by apply list_elem_of_filter in Hin as [? _].
  - intros name Hin. unfold named in Hin. rewrite Ht in Hin.
    by apply list_elem_of_filter in Hin as [? _].
  - unfold session. by rewrite Hrows.
  - intros c Hne. apply (delete_connection_keeps_rows E c cid).
    by intros ->.
  - destruct (delete_connection_ok E Hdb cid w') as [_ ->].
    apply filter_all. intros x Hx. rewrite Ht in Hx.
    by apply list_elem_of_filter in Hx as [? _].
Qed.

(** Whatever the table and the transport answer, [delete_connection]
    returns, only takes rows away, takes none from another connection,
    and pushes nothing. *)
Theorem delete_connection_is_confined E cid w :
  (delete_connection E cid w).1 = Ok tt ∧
  (∀ x, x ∈ table (delete_connection E cid w).2 → x ∈ table w) ∧
  (∀ c, c ≠ cid →
     rows_of c (table (delete_connection E cid w).2) = rows_of c (table w)) ∧
  ∃ evs,
    trace (delete_connection E cid w).2 = trace w ++ evs ∧ pushes evs = [].
Proof.
  split; [apply delete_connection_returns|].
  split; [apply delete_connection_shrinks|].
  split; [|apply delete_connection_quiet].
  intros c Hne. apply (delete_connection_keeps_rows E c cid). by intros ->.
Qed.

(** ** storage.py: [set_username] *)

Lemma set_username_ok E cid old_name username w :
  (∀ n, db_fails E n = false) →
  set_username E cid old_name username w =
    (Ok tt,
     World (table_put (Item cid ("username_" +:+ username))
              (table_delete (Item cid ("username_" +:+ old_name)) (table w)))
           (2 + clock w)
           (trace w ++
              [Db (DeleteItem cid ("username_" +:+ old_name)) true;
               Db (PutItem cid ("username_" +:+ username)) true])).
Proof.
  intros Hdb. unfold set_username, bind, delete_item, put_item.
  rewrite db_call_ok by done. simpl. rewrite db_call_ok by done. simpl.
  by rewrite <- app_assoc.
Qed.

Section AfterRename.

Variables (t t' : list item) (cid old new : string) (rec : gmap string string).
Hypothesis Hs : session t cid = Ok rec.
Hypothesis Hold : ∀ name, named t cid name → name = old.
Hypothesis Hrows :
  rows_of cid t' =
    table_put (Item cid ("username_" +:+ new))
      (table_delete (Item cid ("username_" +:+ old)) (rows_of cid t)).

Lemma named_after_rename name : named t' cid name ↔ name = new.
Proof.
  unfold named.
  assert (Item cid ("username_" +:+ name) ∈ t' ↔
          Item cid ("username_" +:+ name) ∈ rows_of cid t') as ->.
  { unfold rows_of. rewrite list_elem_of_filter. simpl. tauto. }
  rewrite Hrows, elem_of_table_put, elem_of_table_delete. split.
  - intros [H|[Hne [_ Hin]%list_elem_of_filter]].
    + injection H. apply app_inj_l.
    + destruct Hne. by rewrite (Hold name Hin).
  - intros ->. by left.
Qed.

(** The record after the rewrite of the identity row. *)
Lemma session_after_rename :
  ∃ rec', session t' cid = Ok rec' ∧
          rec' !! "username" = Some new ∧
          rec' !! "room" = rec !! "room".
Proof.
  unfold session in *.
  destruct (record_of_ok (sorted_by SK (rows_of cid t')) ∅) as [rec' Hrec'].
  { intros it Hit%elem_of_sorted_by. rewrite Hrows in Hit.
    apply elem_of_table_put in Hit as [->|Hin].
    - by exists "username", new.
    - apply elem_of_table_delete in Hin as [_ Hin].
      eapply record_of_well_formed; [exact Hs|].
      by apply elem_of_sorted_by. }
  exists rec'. split; [done|]. split.
  - destruct (record_of_is_Some _ _ _ "username" Hrec') as [v Hv].
    { right. exists (Item cid ("username_" +:+ new)), new. split; [|done].
      rewrite elem_of_sorted_by, Hrows. apply elem_of_table_put. by left. }
    rewrite Hv. f_equal.
    destruct (record_of_lookup _ _ _ _ _ Hrec' Hv) as [H|(it & Hin & Hit)];
      [done|].
    apply named_after_rename. unfold named.
    apply elem_of_sorted_by, list_elem_of_filter in Hin as [Hpk Hin].
    apply split1_two in Hit as [_ Hsk].
    destruct it as [pk sk]. simpl in *. by subst.
  - rewrite (record_of_last _ _ _ "room" Hrec').
    rewrite (omap_sorted_by SK (entry "room") _ (rows_of cid t)).
    { by rewrite <- (record_of_last _ _ _ "room" Hs). }
    rewrite Hrows, filter_table_put by (by intros [? ?]).
    by rewrite filter_table_delete by (by intros [? ?]).
Qed.

End AfterRename.

(** [set_username] followed by [get_record_by_connection] gives the new
    name, when the table answers and the identity rows of the connection
    are the row of the old name (or there is none): the connection then
    has exactly the identity row of the new name, its room is the one it
    had, and the rows of the other connections are untouched.  The old
    name may be empty, and may be the new name. *)
Theorem set_username_round_trip E cid old_name username w rec :
  (∀ n, db_fails E n = false) →
  session (table w) cid = Ok rec →
  (∀ name, named (table w) cid name → name = old_name) →
  let w' := (set_username E cid old_name username w).2 in
  (set_username E cid old_name username w).1 = Ok tt ∧
  (∃ rec',
     (get_record_by_connection E cid w').1 = Ok rec' ∧
     rec' !! "username" = Some username ∧
     rec' !! "room" = rec !! "room") ∧
  (∀ name, named (table w') cid name ↔ name = username) ∧
  (∀ c, c ≠ cid → rows_of c (table w') = rows_of c (table w)).
Proof.
  intros Hdb Hs Hold. rewrite set_username_ok by done. simpl.
  assert (rows_of cid
            (table_put (Item cid ("username_" +:+ username))
               (table_delete (Item cid ("username_" +:+ old_name)) (table w)))
          = table_put (Item cid ("username_" +:+ username))
              (table_delete (Item cid ("username_" +:+ old_name))
                 (rows_of cid (table w)))) as Hrows
    by (by rewrite rows_of_table_put, rows_of_table_delete).
  split; [done|]. split; [|split].
  - destruct (session_after_rename _ _ _ _ _ _ Hs Hold Hrows)
      as (rec' & Hs' & Hu & Hr).
    exists rec'. rewrite get_record_ok by done.
    exact (conj Hs' (conj Hu Hr)).
  - intros name. by eapply named_after_rename.
  - intros c Hne. unfold rows_of, table_put, table_delete.
    destruct (decide _).
    + rewrite list_filter_filter. apply filter_elem_of_ext.
      intros x _. split; [tauto|]. intros Hx. split; [done|].
      intros ->. by apply Hne.
    + rewrite filter_app, list_filter_filter.
      rewrite (filter_cons_False _ _ []) by (simpl; congruence).
      rewrite app_nil_r. apply filter_elem_of_ext.
      intros x _. split; [tauto|]. intros Hx. split; [done|].
      intros ->. by apply Hne.
Qed.

(** ** handler.py: the first message and [/nick name] *)

(** The first message of a connection that has only the stub identity row
    becomes its name as it is, whatever the text (a text that begins with
    a slash and the empty text included): the stub row is replaced by the
    row of that name, the choice is confirmed to the caller, and the
    record then has this name and the room it had. *)
Theorem first_message_is_the_name E cid msg w rec :
  (∀ n, db_fails E n = false) →
  ws_push E (3 + clock w) cid = Delivered →
  session (table w) cid = Ok rec → rec !! "username" = Some "" →
  (∀ name, named (table w) cid name → name = "") →
  let w' :=
    World (table_put (Item cid ("username_" +:+ msg))
             (table_delete (Item cid "username_") (table w)))
          (4 + clock w)
          (trace w ++
             [Db (QueryPK cid) true;
              Db (DeleteItem cid "username_") true;
              Db (PutItem cid ("username_" +:+ msg)) true;
              Push cid ("Using nickname: " +:+ msg +:+ Py.newline +:+
                        "Type /help for list of commands.") Delivered]) in
  handle E cid msg w = (Ok tt, w') ∧
  ∃ rec', session (table w') cid = Ok rec' ∧
          rec' !! "username" = Some msg ∧
          rec' !! "room" = rec !! "room".
Proof.
  intros Hdb Hws Hs Hu Hold w'. split.
  - rewrite (handle_anonymous E cid msg w rec) by done.
    unfold _handle_login_message.
    rewrite (bind_ok _ _ _ _ _ (set_username_ok E cid "" msg _ Hdb)).
    rewrite send_delivered by done. simpl.
    by rewrite <- !app_assoc.
  - apply (session_after_rename _ _ _ "" msg _ Hs Hold).
    unfold w'. simpl. by rewrite rows_of_table_put, rows_of_table_delete.
Qed.

(** [/nick name] by a logged-in connection whose one identity row is its
    current name, while the table answers, no push fails for another
    reason than a peer gone and the pushes to the caller are delivered:
    the message is handled without an exception and the record then has
    the new name and the room it had.  The name may be empty ([/nick]
    followed by one space): the username is then empty again. *)
Theorem nick_renames E cid nick w rec u :
  (∀ n, db_fails E n = false) →
  (∀ n c, ws_push E n c ≠ PushFailed) →
  (∀ n, ws_push E n cid = Delivered) →
  session (table w) cid = Ok rec → rec !! "username" = Some u → u ≠ "" →
  (∀ name, named (table w) cid name → name = u) →
  Py.contains " " nick = false →
  (handle E cid ("/nick " +:+ nick) w).1 = Ok tt ∧
  ∃ rec',
    session (table (handle E cid ("/nick " +:+ nick) w).2) cid = Ok rec' ∧
    rec' !! "username" = Some nick ∧
    rec' !! "room" = rec !! "room".
Proof.
  intros Hdb Hws Hlive Hs Hu Hne Hold Htok.
  rewrite (handle_logged_in E cid _ w rec u), dispatch_nick_to by done.
  unfold _nick, dict_getitem. rewrite Hu.
  change (bind (ret u) ?k (after_query cid w))
    with (k u (after_query cid w)). cbv beta.
  rewrite (bind_ok _ _ _ _ _ (set_username_ok E cid u nick _ Hdb)).
  rewrite (bind_ok _ _ _ _ _ (send_delivered E cid _ _ (Hlive _))).
  set (tA := table_put (Item cid ("username_" +:+ nick))
               (table_delete (Item cid ("username_" +:+ u)) (table w))).
  assert (rows_of cid tA =
          table_put (Item cid ("username_" +:+ nick))
            (table_delete (Item cid ("username_" +:+ u))
               (rows_of cid (table w)))) as HrowsA
    by (unfold tA; by rewrite rows_of_table_put, rows_of_table_delete).
  assert (∀ wF : world,
            rows_of cid (table wF) = rows_of cid tA →
            ∃ rec', session (table wF) cid = Ok rec' ∧
                    rec' !! "username" = Some nick ∧
                    rec' !! "room" = rec !! "room") as Hfin.
  { intros wF HF. apply (session_after_rename _ _ _ u nick _ Hs Hold).
    by rewrite HF. }
  simpl. destruct (rec !! "room") as [room|] eqn:Hroom;
    [|split; [done | by apply Hfin]].
  destruct (decide (room = "")); [split; [done | by apply Hfin]|].
  rewrite (bind_ok _ _ _ _ _ (get_connection_ids_ok E Hdb room _)). simpl.
  rewrite decide_True.
  2:{ apply elem_of_members. unfold in_room. simpl.
      unfold tA. apply elem_of_table_put. right.
      apply elem_of_table_delete. split; [done|].
      by eapply session_room_in. }
  change (bind (ret ?x) ?k ?w0) with (k x w0). cbv beta.
  change (bind (ret u) ?k ?w0) with (k u w0). cbv beta.
  match goal with
  | |- context [broadcast E ?l ?m ?w0] =>
      destruct (safe_broadcast E cid Hws Hlive l m w0) as [[[] Hr] Hk]
  end.
  split; [done|]. apply Hfin. by rewrite Hk.
Qed.

(** ** handler.py: text messages and the dispatch of commands *)

(** A logged-in connection sends a text that does not begin with a slash,
    while the table answers.  Without a room in the record the refusal is
    pushed to the caller and nothing else is pushed.  With a room (of any
    name), the members of the room are queried, the sender among them,
    and the text, after the name of the sender, is broadcast to them:
    unless a push is refused for another reason than a peer gone,
    [handle] returns and, after the query, every member was pushed
    [u: text] once, in the order of the query, and nobody else was pushed
    anything. *)
Theorem text_goes_to_the_room E cid msg w rec u :
  (∀ n, db_fails E n = false) →
  session (table w) cid = Ok rec → rec !! "username" = Some u → u ≠ "" →
  Py.startswith "/" msg = false →
  (rec !! "room" = None →
     handle E cid msg w =
       send E cid "Cannot send message if not in chatroom."
            (after_query cid w) ∧
     ∃ evs,
       trace (handle E cid msg w).2 =
         trace w ++ Db (QueryPK cid) true
                 :: Push cid "Cannot send message if not in chatroom."
                         (ws_push E (S (clock w)) cid)
                 :: evs ∧
       pushes evs = []) ∧
  (∀ room, rec !! "room" = Some room →
     let ids := members (table w) room in
     let w' :=
       World (table w) (2 + clock w)
         (trace w ++ [Db (QueryPK cid) true;
                      Db (QueryIndex ("room_" +:+ room)) true]) in
     cid ∈ ids ∧
     (∀ c, c ∈ ids ↔ in_room (table w) c room) ∧
     handle E cid msg w = broadcast E ids (u +:+ ": " +:+ msg) w' ∧
     ((∀ n c, c ∈ ids → ws_push E n c ≠ PushFailed) →
        (handle E cid msg w).1 = Ok tt ∧
        ∃ evs,
          trace (handle E cid msg w).2 = trace w' ++ evs ∧
          pushed evs = (fun c => (c, u +:+ ": " +:+ msg)) <$> ids)).
Proof.
  intros Hdb Hs Hu Hne Htext.
  rewrite (handle_logged_in E cid msg w rec u) by done.
  unfold _handle_message. rewrite Htext. unfold _handle_text. split.
  - intros ->. split; [done|].
    destruct (send_trace E cid "Cannot send message if not in chatroom."
                (after_query cid w)) as (evs & Htr & Hq & _).
    exists evs. rewrite Htr. simpl. by rewrite <- app_assoc.
  - intros room Hroom. rewrite Hroom. cbv zeta.
    set (ids := members (table w) room).
    set (w' := World (table w) (2 + clock w) _).
    assert ((let! connection_ids := get_connection_ids_by_room E room in
             let! username := dict_getitem rec "username" in
             broadcast E connection_ids (username +:+ ": " +:+ msg))
              (after_query cid w)
            = broadcast E ids (u +:+ ": " +:+ msg) w') as ->.
    { rewrite (bind_ok _ _ _ _ _ (get_connection_ids_ok E Hdb room _)).
      unfold dict_getitem. rewrite Hu. simpl.
      change (bind (ret u) ?k ?w0) with (k u w0). cbv beta.
      unfold w'. by rewrite <- app_assoc. }
    split; [|split; [|split; [done|]]].
    + apply elem_of_members. by eapply session_room_in.
    + intros c. apply elem_of_members.
    + apply broadcast_pushes.
Qed.

Lemma split_app_sep sep name rest :
  Py.contains sep name = false →
  Py.split sep (name +:+ String sep rest) = name :: Py.split sep rest.
Proof.
  induction name as [|c name IH]; simpl.
  - intros _. by rewrite decide_True.
  - destruct (decide (c = sep)); [done|]. intros H. by rewrite (IH H).
Qed.

Lemma startswith_slash s : Py.startswith "/" ("/" +:+ s) = true.
Proof. by destruct s. Qed.

(** The name of a command is looked up in lower case, its arguments are
    passed as they are: a message made of a slash, a name without a space
    whose lower case is in the command table, and possibly a space and
    the rest, runs the command of the table on the rest split at every
    space (on no argument when there is no rest). *)
Theorem command_names_ignore_case E cid name rest rec command :
  Py.contains " " name = false →
  _command_table E !! Py.lower name = Some command →
  _handle_message E cid ("/" +:+ name) rec = command cid [] rec ∧
  _handle_message E cid ("/" +:+ name +:+ " " +:+ rest) rec
    = command cid (Py.split " " rest) rec.
Proof.
  intros Htok Hc. unfold _handle_message.
  rewrite !startswith_slash.
  change (Py.tail ("/" +:+ name)) with name.
  change (Py.tail ("/" +:+ name +:+ " " +:+ rest))
    with (name +:+ String " " rest).
  unfold _handle_command.
  rewrite split_no_sep, split_app_sep by done.
  change (getitem [name] 0) with (ret (A := string) name).
  change (getitem (name :: Py.split " " rest) 0) with (ret (A := string) name).
  unfold bind, ret. cbv beta iota zeta. rewrite Hc. done.
Qed.

(** ** sender.py: a push that fails *)

(** A broadcast stops at the first push that fails for another reason than
    a peer gone: the handles before it got the message, the error leaves
    [broadcast], the table is as it was, and the handles after it are not
    pushed to. *)
Theorem broadcast_stops_at_failure E l1 c l2 m w :
  (∀ n x, x ∈ l1 → ws_push E n x = Delivered) →
  ws_push E (List.length l1 + clock w) c = PushFailed →
  broadcast E (l1 ++ c :: l2) m w =
    (Raise WebsocketError,
     World (table w) (S (List.length l1 + clock w))
           (trace w ++ ((fun x => Push x m Delivered) <$> l1)
                   ++ [Push c m PushFailed])).
Proof.
  revert w. induction l1 as [|x l1 IH]; intros w Hlive Hc.
  - unfold broadcast. simpl. unfold bind. by rewrite send_failed.
  - unfold broadcast. simpl. fold (broadcast E (l1 ++ c :: l2) m).
    rewrite (bind_ok _ _ _ _ _
               (send_delivered E x m w (Hlive _ x ltac:(left)))).
    rewrite IH.
    + simpl. rewrite <- app_assoc, Nat.add_succ_r. done.
    + intros n y Hy. apply Hlive. by right.
    + simpl. rewrite Nat.add_succ_r. exact Hc.
Qed.

(** ** Every row that the code writes can be read back *)

Lemma gains_well_formed_refl w : gains_well_formed w w.
Proof. intros x Hx. by left. Qed.

Lemma gains_well_formed_trans w1 w2 w3 :
  gains_well_formed w1 w2 → gains_well_formed w2 w3 →
  gains_well_formed w1 w3.
Proof.
  intros H1 H2 x Hx. destruct (H2 x Hx) as [Hx2|?]; [|by right]. by apply H1.
Qed.

Lemma shrinks_gains_well_formed w w' : shrinks w w' → gains_well_formed w w'.
Proof. intros H x Hx. left. by apply H. Qed.

Lemma well_formed_table_gains w w' :
  gains_well_formed w w' →
  well_formed_table (table w) → well_formed_table (table w').
Proof. intros Hg Hwf x Hx. destruct (Hg x Hx); [by apply Hwf | done]. Qed.

(** The name of a command and its handler, for a hit in the table. *)
Lemma command_table_hit E name command :
  _command_table E !! name = Some command →
  (name = "help" ∧ command = _help E) ∨ (name = "nick" ∧ command = _nick E) ∨
  (name = "join" ∧ command = _join E) ∨ (name = "room" ∧ command = _room E) ∨
  (name = "quit" ∧ command = _quit E) ∨ (name = "ls" ∧ command = _list E).
Proof.
  unfold _command_table. intros H%elem_of_list_to_map_2.
  repeat (apply elem_of_cons in H as [H|H]; [injection H as -> ->; tauto|]).
  inversion H.
Qed.

Section WellFormed.

Variable E : env.

Lemma put_item_gains_well_formed it :
  well_formed it → steps gains_well_formed (put_item E it).
Proof.
  intros Hwf w x. unfold put_item, db_call.
  destruct (db_fails E (clock w)); simpl; [by left|].
  intros [->|?]%elem_of_table_put; [by right | by left].
Qed.

Lemma well_formed_username cid name :
  well_formed (Item cid ("username_" +:+ name)).
Proof. by exists "username", name. Qed.

Lemma well_formed_room cid room : well_formed (Item cid ("room_" +:+ room)).
Proof. by exists "room", room. Qed.

Ltac gwf :=
  steps_with gains_well_formed_refl gains_well_formed_trans
    ltac:(first
      [ apply put_item_gains_well_formed;
          first [ apply well_formed_username | apply well_formed_room ]
      | eapply steps_weaken;
          [ apply shrinks_gains_well_formed
          | first [ apply delete_item_shrinks | apply query_pk_shrinks
                  | apply query_index_shrinks | apply send_shrinks
                  | apply broadcast_shrinks
                  | apply delete_connection_shrinks
                  | by apply db_call_shrinks ] ] ]).

Lemma handle_gains_well_formed cid msg :
  steps gains_well_formed (handle E cid msg).
Proof.
  unfold handle, get_record_by_connection, _handle_login_message,
    _handle_message, _handle_text, _handle_command, set_username,
    get_connection_ids_by_room, sender_call.
  gwf.
  match goal with
  | H : _command_table E !! _ = Some _ |- _ =>
      apply command_table_hit in H
        as [[_ ->] | [[_ ->] | [[_ ->] | [[_ ->] | [[_ ->] | [_ ->]]]]]]
  end;
    unfold _help, _nick, _join, _room, _quit, _list, set_username,
      set_room, remove_room, get_connection_ids_by_room, list_rooms,
      get_record_by_connection, scan, create_connection;
    gwf.
Qed.

Lemma dispatch_gains_well_formed ev : steps gains_well_formed (dispatch E ev).
Proof.
  destruct ev as [c|c|c body]; simpl.
  - apply put_item_gains_well_formed, (well_formed_username c "").
  - eapply steps_weaken;
      [apply shrinks_gains_well_formed | apply delete_connection_shrinks].
  - apply handle_gains_well_formed.
Qed.

Lemma run_well_formed evs w :
  well_formed_table (table w) → well_formed_table (table (run E evs w)).
Proof.
  revert w. induction evs as [|ev evs IH]; intros w Hwf; [done|].
  simpl. apply IH.
  eapply well_formed_table_gains; [apply dispatch_gains_well_formed | done].
Qed.

End WellFormed.

(** In every world reached from the empty table, whatever the events and
    whatever the table and the transport answered, every row has the form
    that [get_record_by_connection] reads: the record of every connection
    can be built, so that [get_record_by_connection] raises nothing but an
    error of the table. *)
Theorem records_always_load E evs cid :
  let w := run E evs empty_world in
  well_formed_table (table w) ∧
  ∃ rec,
    session (table w) cid = Ok rec ∧
    (get_record_by_connection E cid w).1 =
      (if db_fails E (clock w) then Raise ClientError else Ok rec).
Proof.
  intros w.
  assert (well_formed_table (table w)) as Hwf.
  { apply run_well_formed. intros x Hx. inversion Hx. }
  split; [exact Hwf|].
  destruct (record_of_ok (sorted_by SK (rows_of cid (table w))) ∅)
    as [rec Hrec].
  { intros it [_ Hin]%elem_of_sorted_by%list_elem_of_filter. by apply Hwf. }
  exists rec. split; [exact Hrec|].
  destruct (db_fails E (clock w)) eqn:Hdb.
  - unfold get_record_by_connection, bind, query_pk.
    by rewrite db_call_fails.
  - rewrite get_record_ok by done. exact Hrec.
Qed.

(** ** At most one identity row per connection *)

Lemma no_new_names_refl w : no_new_names w w.
Proof. by intros cid n. Qed.

Lemma no_new_names_trans w1 w2 w3 :
  no_new_names w1 w2 → no_new_names w2 w3 → no_new_names w1 w3.
Proof. intros H1 H2 cid n H. auto. Qed.

Lemma shrinks_no_new_names w w' : shrinks w w' → no_new_names w w'.
Proof. intros H cid n. apply H. Qed.

Lemma at_most_one_name_no_new_names w w' :
  no_new_names w w' →
  at_most_one_name (table w) → at_most_one_name (table w').
Proof. intros Hn H cid n1 n2 H1 H2. apply (H cid); by apply Hn. Qed.

(** The table after the identity row of the record is rewritten. *)
Lemma at_most_one_name_rename cid old new t :
  at_most_one_name t → named t cid old →
  at_most_one_name
    (table_put (Item cid ("username_" +:+ new))
       (table_delete (Item cid ("username_" +:+ old)) t)).
Proof.
  intros Hinv Hold c n1 n2. unfold named.
  rewrite !elem_of_table_put, !elem_of_table_delete.
  assert (∀ n, Item c ("username_" +:+ n) = Item cid ("username_" +:+ new) ∨
               Item c ("username_" +:+ n) ≠ Item cid ("username_" +:+ old) ∧
               Item c ("username_" +:+ n) ∈ t →
               (c = cid ∧ n = new) ∨ (c ≠ cid ∧ named t c n)) as Hcase.
  { intros n [H|[Hne Hin]].
    - injection H as -> Hn%app_inj_l. by left.
    - right. split; [|done]. intros ->. apply Hne.
      by rewrite (Hinv cid n old Hin Hold). }
  intros [[Hc1 Hn1]|[Hc1 H1]]%Hcase [[Hc2 Hn2]|[Hc2 H2]]%Hcase;
    try congruence.
  by apply (Hinv c).
Qed.

Section OneName.

Variable E : env.

Lemma put_room_no_new_names cid room :
  steps no_new_names (put_item E (Item cid ("room_" +:+ room))).
Proof.
  intros w c n. unfold put_item, db_call, named.
  destruct (db_fails E (clock w)); simpl; [done|].
  by intros [?|?]%elem_of_table_put.
Qed.

Ltac nnn :=
  steps_with no_new_names_refl no_new_names_trans
    ltac:(first
      [ apply put_room_no_new_names
      | eapply steps_weaken;
          [ apply shrinks_no_new_names
          | first [ apply delete_item_shrinks | apply query_pk_shrinks
                  | apply query_index_shrinks | apply send_shrinks
                  | apply broadcast_shrinks
                  | apply delete_connection_shrinks
                  | by apply db_call_shrinks ] ] ]).

Lemma set_username_keeps_one_name cid old new w :
  at_most_one_name (table w) → named (table w) cid old →
  at_most_one_name (table (set_username E cid old new w).2).
Proof.
  intros Hinv Hold. unfold set_username, bind, delete_item, put_item.
  destruct (db_call_cases E (DeleteItem cid ("username_" +:+ old))
              (fun t => (tt, table_delete (Item cid ("username_" +:+ old)) t))
              w) as [[Hr Ht]|[Hr Ht]];
    destruct (db_call E _ _ w) as [r w1]; simpl in Hr, Ht; subst r;
    [simpl; by rewrite Ht|].
  destruct (db_call_cases E (PutItem cid ("username_" +:+ new))
              (fun t => (tt, table_put (Item cid ("username_" +:+ new)) t))
              w1) as [[Hr Ht1]|[Hr Ht1]];
    destruct (db_call E _ _ w1) as [r w2]; simpl in Hr, Ht1; subst r;
    simpl; rewrite Ht1, Ht.
  - intros c n1 n2 [_ H1]%elem_of_table_delete [_ H2]%elem_of_table_delete.
    by apply (Hinv c).
  - by apply at_most_one_name_rename.
Qed.

(** Every message keeps the invariant, whatever the environment. *)
Lemma handle_keeps_one_name cid msg w :
  at_most_one_name (table w) →
  at_most_one_name (table (handle E cid msg w).2).
Proof.
  intros Hinv. unfold handle. unfold bind at 1.
  destruct (get_record_table E cid w) as [Ht Hr].
  destruct (get_record_by_connection E cid w) as [[rec|e] w1];
    simpl in Ht, Hr; [|simpl; by rewrite Ht].
  destruct Hr as [Hr|Hr]; [done|]. symmetry in Hr.
  rewrite <- Ht in Hinv, Hr. clear Ht.
  unfold dict_getitem.
  destruct (rec !! "username") as [u|] eqn:Hu; [|done].
  pose proof (session_named_in _ _ _ _ Hr Hu) as Hnamed.
  change (bind (ret u) ?k w1) with (k u w1). cbv beta.
  assert (∀ (c : M unit) w0,
            steps no_new_names c → at_most_one_name (table w0) →
            at_most_one_name (table (c w0).2)) as Hsteps.
  { intros c w0 Hc. apply at_most_one_name_no_new_names, Hc. }
  assert (∀ new (k : M unit),
            steps no_new_names k →
            at_most_one_name
              (table ((set_username E cid u new >>> k) w1).2)) as Hrename.
  { intros new k Hk. unfold bind.
    pose proof (set_username_keeps_one_name cid u new w1 Hinv Hnamed) as H1.
    destruct (set_username E cid u new w1) as [[[]|e] w2]; [|done].
    by apply Hsteps. }
  destruct (decide (u = "")) as [->|Hne].
  { unfold _handle_login_message. apply Hrename. nnn. }
  unfold _handle_message. destruct (Py.startswith "/" msg).
  2:{ apply Hsteps; [|done]. unfold _handle_text, get_connection_ids_by_room.
      nnn. }
  unfold _handle_command, getitem.
  destruct (Py.split " " (Py.tail msg) !! 0) as [name|]; [|done].
  change (bind (ret name) ?k w1) with (k name w1). cbv beta zeta.
  destruct (_command_table E !! Py.lower name) as [command|] eqn:Hc; [|done].
  apply command_table_inv in Hc
    as [-> | [-> | [-> | [-> | [-> | ->]]]]].
  - apply Hsteps; [|done]. unfold _help. nnn.
  - unfold _nick. destruct (drop 1 (Py.split " " (Py.tail msg))) as [|nick ?].
    + apply Hsteps; [|done]. nnn.
    + unfold dict_getitem at 1. rewrite Hu.
      change (bind (ret u) ?k w1) with (k u w1). cbv beta.
      apply Hrename. unfold get_connection_ids_by_room. nnn.
  - apply Hsteps; [|done].
    unfold _join, _quit, set_room, remove_room, get_connection_ids_by_room.
    nnn.
  - apply Hsteps; [|done]. unfold _room. nnn.
  - apply Hsteps; [|done].
    unfold _quit, remove_room, get_connection_ids_by_room. nnn.
  - apply Hsteps; [|done].
    unfold _list, list_rooms, get_connection_ids_by_room,
      get_record_by_connection, scan.
    nnn.
Qed.

End OneName.

(** Whatever the environment, a message of any connection and a
    disconnection keep a table with at most one identity row per
    connection so; a connection notice keeps it so when the connection
    has no identity row but the stub. *)
Theorem one_name_per_connection E cid w :
  at_most_one_name (table w) →
  (∀ msg, at_most_one_name (table (message E cid msg w).2)) ∧
  at_most_one_name (table (disconnect E cid w).2) ∧
  ((∀ name, named (table w) cid name → name = "") →
   at_most_one_name (table (connect E cid w).2)).
Proof.
  intros Hinv. split; [|split].
  - intros msg. by apply handle_keeps_one_name.
  - eapply at_most_one_name_no_new_names; [|exact Hinv].
    apply shrinks_no_new_names, delete_connection_shrinks.
  - intros Hstub. unfold connect, create_connection, put_item, db_call.
    destruct (db_fails E (clock w)); simpl; [done|].
    intros c n1 n2. unfold named. rewrite !elem_of_table_put.
    intros [H1|H1] [H2|H2].
    + injection H1 as _ H1. injection H2 as _ H2.
      change (n1 = "") in H1. change (n2 = "") in H2. congruence.
    + injection H1 as -> H1. change (n1 = "") in H1. subst n1.
      symmetry. by apply Hstub.
    + injection H2 as -> H2. change (n2 = "") in H2. subst n2.
      by apply Hstub.
    + by apply (Hinv c).
Qed.

(** ** Messages that only read *)

Lemma same_table_refl w : same_table w w.
Proof. done. Qed.

Lemma same_table_trans w1 w2 w3 :
  same_table w1 w2 → same_table w2 w3 → same_table w1 w3.
Proof. unfold same_table. congruence. Qed.

Section Reading.

Variable E : env.
Hypothesis nobody_gone : ∀ n c, ws_push E n c ≠ PeerGone.

Lemma db_read_same_table {A} op (g : list item → A) :
  steps same_table (db_call E op (fun t => (g t, t))).
Proof.
  intros w. unfold db_call, same_table.
  by destruct (db_fails E (clock w)).
Qed.

Lemma send_same_table c m : steps same_table (send E c m).
Proof.
  intros w. pose proof (nobody_gone (clock w) c) as Hc.
  destruct (ws_push E (clock w) c) eqn:Hp; [|done|].
  - by rewrite send_delivered.
  - by rewrite send_failed.
Qed.

Ltac rd :=
  steps_with same_table_refl same_table_trans
    ltac:(first [ apply send_same_table | apply db_read_same_table ]).

Lemma reading_same_table cid args rec :
  steps same_table (_help E cid args rec) ∧
  steps same_table (_room E cid args rec) ∧
  steps same_table (_list E cid args rec) ∧
  (∀ msg, steps same_table (_handle_text E cid msg rec)).
Proof.
  unfold _help, _room, _list, _handle_text, list_rooms, scan, broadcast,
    get_connection_ids_by_room, get_record_by_connection, query_index,
    query_pk.
  repeat split; rd.
Qed.

End Reading.

(** A logged-in connection sends a text, or a command whose name is made
    of ASCII characters and, in lower case, is none of [nick], [join] and
    [quit] (so [/help], [/room], [/ls] and the names that the table does
    not have): unless a peer is found gone, the table is afterwards the
    one before, whatever the table answered and whether or not a push
    failed. *)
Theorem reading_leaves_the_table E cid msg w rec u :
  (∀ n c, ws_push E n c ≠ PeerGone) →
  session (table w) cid = Ok rec → rec !! "username" = Some u → u ≠ "" →
  Py.startswith "/" msg = false ∨
  (Py.isascii (default "" (head (Py.split " " (Py.tail msg)))) = true ∧
   Py.lower (default "" (head (Py.split " " (Py.tail msg))))
     ∉ ["nick"; "join"; "quit"]) →
  table (handle E cid msg w).2 = table w.
Proof.
  intros Hws Hs Hu Hne Hmsg. unfold handle. unfold bind at 1.
  destruct (get_record_table E cid w) as [Ht Hr].
  destruct (get_record_by_connection E cid w) as [[rec'|e] w1];
    simpl in Ht, Hr; [|done].
  destruct Hr as [Hr|Hr]; [done|]. rewrite Hs in Hr. injection Hr as ->.
  unfold dict_getitem. rewrite Hu.
  change (bind (ret u) ?k w1) with (k u w1). cbv beta.
  rewrite decide_False by done. rewrite <- Ht.
  destruct (reading_same_table E Hws cid [] rec) as (_ & _ & _ & Htext).
  unfold _handle_message. destruct (Py.startswith "/" msg) eqn:Hsl;
    [|apply Htext].
  destruct Hmsg as [?|[_ Hname]]; [done|].
  unfold _handle_command.
  destruct (Py.split " " (Py.tail msg)) as [|name args] eqn:Hsp;
    [by apply split_nonempty in Hsp|].
  change (getitem (name :: args) 0) with (ret (A := string) name).
  change (bind (ret name) ?k w1) with (k name w1). cbv beta zeta.
  change (default "" (head (name :: args))) with name in Hname.
  destruct (_command_table E !! Py.lower name) as [command|] eqn:Hc;
    [|reflexivity].
  destruct (reading_same_table E Hws cid (drop 1 (name :: args)) rec)
    as (Hhelp & Hroom & Hlist & _).
  apply command_table_hit in Hc
    as [[_ ->] | [[Hn _] | [[Hn _] | [[_ ->] | [[Hn _] | [_ ->]]]]]];
    try (destruct Hname; rewrite Hn; set_solver).
  - apply Hhelp.
  - apply Hroom.
  - apply Hlist.
Qed.

(** ** handler.py: [/ls] *)

Lemma usernames_of_members E t ids names w :
  (∀ n, db_fails E n = false) →
  table w = t →
  Forall2 (username_of t) ids names →
  map_each ids
    (fun c_id => let! r := get_record_by_connection E c_id in
                 dict_getitem r "username") w =
    (Ok names,
     World t (List.length ids + clock w)
           (trace w ++ ((fun c => Db (QueryPK c) true) <$> ids))).
Proof.
  intros Hdb. revert names w.
  induction ids as [|c ids IH]; intros names w <- Hall.
  - apply Forall2_nil_inv_l in Hall as ->. simpl.
    unfold ret. rewrite app_nil_r. by destruct w.
  - apply Forall2_cons_inv_l in Hall as (u & names' & (rec & Hs & Hu) & Hall & ->).
    assert ((let! r := get_record_by_connection E c in
             dict_getitem r "username") w = (Ok u, after_query c w)) as Hc.
    { unfold bind. rewrite get_record_ok, Hs by done.
      unfold dict_getitem. by rewrite Hu. }
    simpl. rewrite (bind_ok _ _ _ _ _ Hc).
    rewrite (bind_ok _ _ _ _ _ (IH names' (after_query c w) eq_refl Hall)).
    unfold ret. simpl. by rewrite <- app_assoc, Nat.add_succ_r.
Qed.

(** A logged-in connection sends [/ls] while the table answers.  In a
    room with a name that is not empty, the members are queried and the
    record of each is loaded in turn; when the record of every member has
    a username, these usernames, one per line in the order of the query,
    are pushed to the caller, whose own name is among them, and nothing
    else is pushed.  With no room, or in the room with the empty name,
    the table is scanned and the rooms are pushed to the caller, one per
    line, in the order in which Python iterates over the set that
    [list_rooms] returned; that set holds the rooms that have a member,
    and in an environment of Python the listing has each of them once.
    Nothing else is pushed. *)
Theorem ls_lists_members_or_rooms E cid w rec u :
  (∀ n, db_fails E n = false) →
  session (table w) cid = Ok rec → rec !! "username" = Some u → u ≠ "" →
  (∀ room names, rec !! "room" = Some room → room ≠ "" →
     let ids := members (table w) room in
     let w' :=
       World (table w) (List.length ids + (2 + clock w))
         (trace w ++ [Db (QueryPK cid) true;
                      Db (QueryIndex ("room_" +:+ room)) true]
                  ++ ((fun c => Db (QueryPK c) true) <$> ids)) in
     Forall2 (username_of (table w)) ids names →
     u ∈ names ∧
     handle E cid "/ls" w = send E cid (Py.join Py.newline names) w' ∧
     ∃ evs,
       trace (handle E cid "/ls" w).2 =
         trace w' ++ Push cid (Py.join Py.newline names)
                          (ws_push E (clock w') cid) :: evs ∧
       pushes evs = []) ∧
  (rec !! "room" = None ∨ rec !! "room" = Some "" →
     ∃ rooms : gset string,
       let listing := set_iteration E rooms in
       let w' :=
         World (table w) (2 + clock w)
           (trace w ++ [Db (QueryPK cid) true; Db Scan true]) in
       (∀ r, r ∈ rooms ↔ ∃ c, in_room (table w) c r) ∧
       (python_sets E →
          NoDup listing ∧ ∀ r, r ∈ listing ↔ ∃ c, in_room (table w) c r) ∧
       handle E cid "/ls" w = send E cid (Py.join Py.newline listing) w' ∧
       ∃ evs,
         trace (handle E cid "/ls" w).2 =
           trace w' ++ Push cid (Py.join Py.newline listing)
                            (ws_push E (clock w') cid) :: evs ∧
         pushes evs = []).
Proof.
  intros Hdb Hs Hu Hne.
  rewrite (handle_logged_in E cid _ w rec u) by done.
  change (_handle_message E cid "/ls" rec) with (_list E cid [] rec).
  unfold _list. split.
  - intros room names Hroom Hrne. cbv zeta.
    set (ids := members (table w) room).
    set (w' := World (table w) (List.length ids + (2 + clock w)) _).
    intros Hall.
    assert ((let! connection_ids := get_connection_ids_by_room E room in
             map_each connection_ids
               (fun c_id => let! r := get_record_by_connection E c_id in
                            dict_getitem r "username"))
              (after_query cid w) = (Ok names, w')) as Hnames.
    { rewrite (bind_ok _ _ _ _ _ (get_connection_ids_ok E Hdb room _)).
      match goal with
      | |- context [map_each _ _ ?w0] =>
          etrans;
            [exact (usernames_of_members E (table w) ids names w0
                      Hdb eq_refl Hall)|]
      end.
      unfold w'. simpl. by rewrite <- !app_assoc. }
    rewrite Hroom. rewrite decide_False by done.
    rewrite (bind_ok _ _ _ _ _ Hnames).
    split; [|split; [done|]].
    + assert (cid ∈ ids) as Hin.
      { apply elem_of_members. by eapply session_room_in. }
      apply list_elem_of_lookup in Hin as [i Hi].
      destruct (Forall2_lookup_l _ _ _ _ _ Hall Hi)
        as (u' & Hu' & (rec' & Hs' & Hu'')).
      rewrite Hs in Hs'. injection Hs' as <-.
      rewrite Hu in Hu''. injection Hu'' as <-.
      by eapply list_elem_of_lookup_2.
    + destruct (send_trace E cid (Py.join Py.newline names) w')
        as (evs & Htr & Hq & _).
      by exists evs.
  - intros Hroom.
    destruct (list_rooms_ok E (after_query cid w))
      as (rooms & Hl & Hrooms); [done|].
    exists rooms. cbv zeta.
    set (w' := World (table w) (2 + clock w) _).
    split; [exact Hrooms|]. split.
    { intros Hpy. split.
      - rewrite (Hpy rooms). apply NoDup_elements.
      - intros r. by rewrite (Hpy rooms), elem_of_elements. }
    assert ((let! rooms0 := list_rooms E in ret (set_iteration E rooms0))
              (after_query cid w) = (Ok (set_iteration E rooms), w')) as Hall.
    { unfold bind. rewrite Hl. unfold ret, w'. simpl.
      by rewrite <- app_assoc. }
    assert (∀ k : list string → M unit,
              (let! result :=
                 match rec !! "room" with
                 | Some room =>
                     if decide (room = "")
                     then let! rooms0 := list_rooms E in
                          ret (set_iteration E rooms0)
                     else
                       let! connection_ids :=
                         get_connection_ids_by_room E room in
                       map_each connection_ids
                         (fun c_id =>
                            let! r := get_record_by_connection E c_id in
                            dict_getitem r "username")
                 | None => let! rooms0 := list_rooms E in
                           ret (set_iteration E rooms0)
                 end in k result) (after_query cid w)
              = k (set_iteration E rooms) w') as Hk.
    { intros k.
      destruct Hroom as [-> | ->]; [|rewrite decide_True by done];
        unfold bind at 1; by rewrite Hall. }
    rewrite Hk. split; [done|].
    destruct (send_trace E cid (Py.join Py.newline (set_iteration E rooms)) w')
      as (evs & Htr & Hq & _).
    by exists evs.
Qed.

(** ** sender.py: the three outcomes of [send] *)

(** [send] pushes once.  A message delivered leaves the table as it is.
    A peer found gone is not an error for the caller: [send] returns, the
    rows of the other connections are kept and, when the table answers,
    the rows of that peer are gone.  Any other failure leaves [send] as an
    exception, with the table as it was. *)
Theorem send_outcomes E c m w :
  (∃ evs,
     trace (send E c m w).2 =
       trace w ++ Push c m (ws_push E (clock w) c) :: evs ∧
     pushes evs = []) ∧
  (ws_push E (clock w) c = Delivered →
     (send E c m w).1 = Ok tt ∧ table (send E c m w).2 = table w) ∧
  (ws_push E (clock w) c = PeerGone →
     (send E c m w).1 = Ok tt ∧
     (∀ c', c' ≠ c →
        rows_of c' (table (send E c m w).2) = rows_of c' (table w)) ∧
     ((∀ n, db_fails E n = false) →
        table (send E c m w).2 = filter (fun x => PK x ≠ c) (table w))) ∧
  (ws_push E (clock w) c = PushFailed →
     (send E c m w).1 = Raise WebsocketError ∧
     table (send E c m w).2 = table w).
Proof.
  split; [|split; [|split]].
  - destruct (send_trace E c m w) as (evs & Htr & Hq & _). by exists evs.
  - intros Hp. by rewrite send_delivered.
  - intros Hp. rewrite send_gone by done.
    split; [apply delete_connection_returns|]. split.
    + intros c' Hne.
      apply (delete_connection_keeps_rows E c' c ltac:(by intros ->)
               (World (table w) (S (clock w)) (trace w ++ [Push c m PeerGone]))).
    + intros Hdb. by destruct (delete_connection_ok E Hdb c
               (World (table w) (S (clock w)) (trace w ++ [Push c m PeerGone]))).
  - intros Hp. by rewrite send_failed.
Qed.

(** ** storage.py: the rooms after a connection is deleted *)

(** When the table answers, the rooms listed after [delete_connection] are
    the rooms in which another connection is: a room whose only member
    was the deleted connection is listed no more. *)
Theorem rooms_after_delete_connection E cid w :
  (∀ n, db_fails E n = false) →
  ∃ rooms : gset string,
    (list_rooms E (delete_connection E cid w).2).1 = Ok rooms ∧
    ∀ r, r ∈ rooms ↔ ∃ c, c ≠ cid ∧ in_room (table w) c r.
Proof.
  intros Hdb.
  destruct (list_rooms_ok E
              (delete_connection E cid w).2 (Hdb _))
    as (rooms & Hl & Hrooms).
  exists rooms. split; [by rewrite Hl|]. intros r. rewrite Hrooms.
  destruct (delete_connection_ok E Hdb cid w) as [_ Ht].
  unfold in_room. rewrite Ht.
  split; intros [c Hc]; exists c.
  - apply list_elem_of_filter in Hc as [Hpk Hin]. by split.
  - destruct Hc as [Hne Hin]. by apply list_elem_of_filter.
Qed.

(** ** The further theorems at concrete worlds *)

Lemma startswith_username_app n :
  Py.startswith "username_" ("username_" +:+ n) = true.
Proof. by destruct n. Qed.

(** A connection whose identity rows, in the list of its rows, are the one
    row of a name has no identity row of another name. *)
Lemma names_of_rows t cid old :
  filter (fun x => Py.startswith "username_" (SK x) = true) (rows_of cid t)
    = [Item cid ("username_" +:+ old)] →
  ∀ name, named t cid name → name = old.
Proof.
  intros Hrows name Hin.
  assert (Item cid ("username_" +:+ name)
            ∈ filter (fun x => Py.startswith "username_" (SK x) = true)
                     (rows_of cid t)) as H.
  { apply list_elem_of_filter. split; [apply startswith_username_app|].
    by apply list_elem_of_filter. }
  rewrite Hrows in H. apply list_elem_of_singleton in H.
  injection H. apply app_inj_l.
Qed.

Lemma NoDup_fmap_inj {A B} (f : A → B) (l : list A) x y :
  NoDup (f <$> l) → x ∈ l → y ∈ l → f x = f y → x = y.
Proof.
  induction l as [|z l IH]; [by intros _ ?%elem_of_nil|].
  rewrite fmap_cons, NoDup_cons.
  intros [Hz Hnd] [->|Hx]%elem_of_cons [->|Hy]%elem_of_cons Hf; auto.
  - destruct Hz. rewrite Hf. by apply list_elem_of_fmap_2.
  - destruct Hz. rewrite <- Hf. by apply list_elem_of_fmap_2.
Qed.

(** A table in which no connection comes twice among the identity rows
    has at most one identity row per connection. *)
Lemma at_most_one_name_of_rows t :
  NoDup (PK <$> filter (fun x => Py.startswith "username_" (SK x) = true) t) →
  at_most_one_name t.
Proof.
  intros Hnd c n1 n2 H1 H2.
  assert (Item c ("username_" +:+ n1) = Item c ("username_" +:+ n2)) as Heq.
  { eapply NoDup_fmap_inj; [exact Hnd| | |done];
      (apply list_elem_of_filter; split;
         [apply startswith_username_app | done]). }
  injection Heq. apply app_inj_l.
Qed.

Lemma list_rooms_lists_rooms_with_members_witness :
  ∃ rooms : gset string,
    list_rooms reliable w_both =
      (Ok rooms,
       World (table w_both) (S (clock w_both))
             (trace w_both ++ [Db Scan true])) ∧
    ∀ r, r ∈ rooms ↔ ∃ cid, in_room (table w_both) cid r.
Proof.
  refine (list_rooms_lists_rooms_with_members reliable w_both _).
  reflexivity.
Defined.

Lemma room_index_round_trip_witness :
  (set_room reliable "c2" "den" w_both).1 = Ok tt.
Proof.
  refine (proj1 (proj2 (room_index_round_trip reliable "c2" "den" w_both _))).
  reflexivity.
Defined.

Lemma delete_connection_removes_the_connection_witness :
  session (table (delete_connection reliable "c1" w_both).2) "c1" = Ok ∅.
Proof.
  refine (proj1 (proj2 (proj2 (proj2
    (delete_connection_removes_the_connection reliable "c1" w_both _))))).
  reflexivity.
Defined.

Lemma set_username_round_trip_witness :
  (set_username reliable "c1" "alice" "al" w_both).1 = Ok tt.
Proof.
  refine (proj1
    (set_username_round_trip reliable "c1" "alice" "al" w_both alice_in_lobby
       _ _ _)).
  - reflexivity.
  - vm_compute. reflexivity.
  - apply names_of_rows. vm_compute. reflexivity.
Defined.

Lemma first_message_is_the_name_witness :
  (handle reliable "c1" "alice" w_fresh).1 = Ok tt.
Proof.
  refine (f_equal fst (proj1
    (first_message_is_the_name reliable "c1" "alice" w_fresh anonymous
       _ _ _ _ _))).
  - reflexivity.
  - reflexivity.
  - vm_compute. reflexivity.
  - reflexivity.
  - apply names_of_rows. vm_compute. reflexivity.
Defined.

Lemma nick_renames_witness :
  (handle reliable "c1" "/nick al" w_both).1 = Ok tt.
Proof.
  refine (proj1
    (nick_renames reliable "c1" "al" w_both alice_in_lobby "alice"
       _ _ _ _ _ _ _ _)).
  - reflexivity.
  - discriminate.
  - reflexivity.
  - vm_compute. reflexivity.
  - reflexivity.
  - discriminate.
  - apply names_of_rows. vm_compute. reflexivity.
  - reflexivity.
Defined.

Lemma text_goes_to_the_room_witness :
  (handle reliable "c2" "hi" w_late).1 = Ok tt ∧
  ∃ evs,
    trace (handle reliable "c2" "hi" w_late).2 =
      (trace w_late ++
         [Db (QueryPK "c2") true; Db (QueryIndex "room_lobby") true])
        ++ evs ∧
    pushed evs = [("c1", "bob: hi"); ("c2", "bob: hi")].
Proof.
  refine (proj2 (proj2 (proj2 (proj2
    (text_goes_to_the_room reliable "c2" "hi" w_late
       (<["room" := "lobby"]> bob) "bob" _ _ _ _ _) "lobby" _))) _).
  - reflexivity.
  - vm_compute. reflexivity.
  - reflexivity.
  - discriminate.
  - reflexivity.
  - reflexivity.
  - discriminate.
Defined.

Lemma command_names_ignore_case_witness :
  _handle_message reliable "c1" "/JoIn lobby" alice
    = _join reliable "c1" ["lobby"] alice.
Proof.
  refine (proj2
    (command_names_ignore_case reliable "c1" "JoIn" "lobby" alice
       (_join reliable) _ _)).
  - reflexivity.
  - reflexivity.
Defined.

Lemma broadcast_stops_at_failure_witness :
  (broadcast c2_failing ["c1"; "c2"; "c3"] "hi" w_both).1
    = Raise WebsocketError.
Proof.
  refine (f_equal fst
    (broadcast_stops_at_failure c2_failing ["c1"] "c2" ["c3"] "hi" w_both
       _ _)).
  - intros n x ->%list_elem_of_singleton. reflexivity.
  - reflexivity.
Defined.

Lemma one_name_per_connection_witness :
  at_most_one_name (table (message reliable "c1" "alice" w_fresh).2).
Proof.
  refine (proj1 (one_name_per_connection reliable "c1" w_fresh _) "alice").
  apply at_most_one_name_of_rows. compute_done.
Defined.

Lemma reading_leaves_the_table_witness :
  table (handle reliable "c1" "/ls" w_both).2 = table w_both.
Proof.
  refine (reading_leaves_the_table reliable "c1" "/ls" w_both alice_in_lobby
            "alice" _ _ _ _ _).
  - discriminate.
  - vm_compute. reflexivity.
  - reflexivity.
  - discriminate.
  - right. split; [reflexivity | compute_done].
Defined.

Lemma ls_lists_members_or_rooms_witness :
  (∃ evs,
     trace (handle reliable "c2" "/ls" w_late).2 =
       (trace w_late ++
          [Db (QueryPK "c2") true; Db (QueryIndex "room_lobby") true;
           Db (QueryPK "c1") true; Db (QueryPK "c2") true])
         ++ Push "c2" ("alice" +:+ Py.newline +:+ "bob") Delivered :: evs ∧
     pushes evs = []) ∧
  (∃ evs,
     trace (handle reliable "c2" "/ls" w_bob).2 =
       (trace w_bob ++ [Db (QueryPK "c2") true; Db Scan true])
         ++ Push "c2" "lobby" Delivered :: evs ∧
     pushes evs = []).
Proof.
  split.
  - refine (proj2 (proj2 (proj1
      (ls_lists_members_or_rooms reliable "c2" w_late
         (<["room" := "lobby"]> bob) "bob" _ _ _ _)
      "lobby" ["alice"; "bob"] _ _ _))).
    + reflexivity.
    + vm_compute. reflexivity.
    + reflexivity.
    + discriminate.
    + reflexivity.
    + discriminate.
    + change (Forall2 (username_of (table w_late)) ["c1"; "c2"]
                ["alice"; "bob"]).
      repeat constructor.
      * exists alice_in_lobby. split; [vm_compute|]; reflexivity.
      * exists (<["room" := "lobby"]> bob).
        split; [vm_compute|]; reflexivity.
  - destruct (proj2
      (ls_lists_members_or_rooms reliable "c2" w_bob bob "bob"
         (fun _ => eq_refl) ltac:(vm_compute; reflexivity) eq_refl
         ltac:(discriminate)) (or_introl eq_refl))
      as (rooms & Hrooms & _ & _ & Htrace).
    assert (rooms = {["lobby"]}) as ->; [|exact Htrace].
    apply set_eq. intros r. rewrite Hrooms, elem_of_singleton. split.
    + intros [c Hc]. unfold in_room in Hc.
      change (table w_bob)
        with [Item "c1" "username_alice"; Item "c1" "room_lobby";
              Item "c2" "username_bob"] in Hc.
      apply elem_of_cons in Hc as [Hc|Hc];
        [injection Hc as _ Hr; simpl in Hr; discriminate|].
      apply elem_of_cons in Hc as [Hc|Hc];
        [injection Hc as _ Hr; exact Hr|].
      apply elem_of_cons in Hc as [Hc|Hc];
        [injection Hc as _ Hr; simpl in Hr; discriminate|].
      by apply elem_of_nil in Hc.
    + intros ->. exists "c1". unfold in_room. compute_done.
Defined.

Lemma send_outcomes_witness : (send c1_gone "c1" "hi" w_both).1 = Ok tt.
Proof.
  refine (proj1 (proj1 (proj2 (proj2
    (send_outcomes c1_gone "c1" "hi" w_both))) _)).
  reflexivity.
Defined.

Lemma rooms_after_delete_connection_witness :
  ∃ rooms : gset string,
    (list_rooms reliable (delete_connection reliable "c1" w_lobby).2).1
      = Ok rooms ∧
    ∀ r, r ∈ rooms ↔ ∃ c, c ≠ "c1" ∧ in_room (table w_lobby) c r.
Proof.
  refine (rooms_after_delete_connection reliable "c1" w_lobby _).
  reflexivity.
Defined.
